(** * The JASS search driver of Pyserini: [pyserini/search/jass/__main__.py]

    A shallow embedding of the driver's run loop (single-shot and batched
    execution, re-projection of batch results, the scoped output writer and
    the default output path) and the properties of its orchestration. *)

From Stdlib Require Import ZArith List String Ascii Bool Lia Permutation.
From Stdlib Require Import DecimalString.
From Stdlib Require DecimalPos DecimalZ.
Import ListNotations.

Set Implicit Arguments.

(** ** Python values and primitives used by the driver *)

Module Py.

(** A topic id as the query iterator yields it: an [int] or a [str]. *)
Inductive value : Type :=
| VInt (n : Z)
| VStr (s : string).

(** [str(n)] for an [int]. *)
Definition str_int (n : Z) : string := NilZero.string_of_int (Z.to_int n).

(** [str(v)]. *)
Definition str (v : value) : string :=
  match v with
  | VInt n => str_int n
  | VStr s => s
  end.

(** The exceptions that can cross the run loop. [Raised] stands for any
    exception of a collaborator (searcher, output writer). *)
Inductive exn : Type :=
| KeyError (key : string)
| ZeroDivisionError
| Raised (msg : string).

Definition result (A : Type) : Type := (exn + A)%type.

(** [a % b] on Python integers: floor modulo, raising on [b = 0]. *)
Definition mod_ (a b : Z) : result Z :=
  if (b =? 0)%Z then inl ZeroDivisionError else inr (a mod b)%Z.

(** [sep.join(l)]. *)
Definition join (sep : string) (l : list string) : string :=
  String.concat sep l.

(** [s[:-n]] for a literal [n > 0]. *)
Definition drop_last (n : nat) (s : string) : string :=
  substring 0 (String.length s - n) s.

(** A [dict] with [str] keys, in its native iteration order. *)
Definition dict (V : Type) : Type := list (string * V).

Definition keys {V} (d : dict V) : list string := map fst d.

(** The dict invariant: a key occurs once. *)
Definition wf {V} (d : dict V) : Prop := NoDup (keys d).

Fixpoint lookup {V} (k : string) (d : dict V) : option V :=
  match d with
  | [] => None
  | (k', v) :: d' => if String.eqb k k' then Some v else lookup k d'
  end.

(** [d[k]]. *)
Definition getitem {V} (d : dict V) (k : string) : result V :=
  match lookup k d with
  | Some v => inr v
  | None => inl (KeyError k)
  end.

End Py.

(** ** The command line *)

Record Args : Type := {
  index : string;
  rho : Z;
  ascii : bool;
  query : bool;
  topics : string;
  hits : Z;
  topics_format : string;
  output_format : string;
  output : option string;
  batch_size : Z;
  threads : Z
}.

(** Lines 76-79: the output path. *)
Definition output_path (args : Args) : string :=
  match output args with
  | Some p => p
  | None =>
      let tokens := ["run"; topics args;
                     Py.join "_" ["rho"; Py.str_int (rho args)]; "txt"]%string in
      Py.join "." tokens
  end.

(** Line 82: the run tag. *)
Definition tag (args : Args) : string :=
  match output args with
  | None => Py.drop_last 4 (output_path args)
  | Some _ => "JaSS"%string
  end.

(** ** Effects of the driver *)

Section Effects.

(** [Hits] is what the searcher returns for one query; [W] is the state of
    the world outside the driver (the index, the output file). *)
Variables Hits W : Type.

(** The interface of [JASSv2Searcher] the driver uses. *)
Record Searcher : Type := {
  search : string -> Z -> Z -> W -> Py.result Hits * W;
  batch_search : list string -> list string -> Z -> Z -> Z ->
                 W -> Py.result (Py.dict Hits) * W
}.

(** The interface of the output writer the loop uses. *)
Record OutputWriter : Type := {
  write : Py.value -> Hits -> W -> Py.result unit * W
}.

(** What the driver does to its collaborators, in program order. Calls
    are logged with what they returned or raised. *)
Inductive event : Type :=
| EvEnter
| EvExit
| EvNext (index : nat) (topic_id : Py.value) (text : string)
| EvSearch (text : string) (k r : Z) (res : Py.result Hits)
| EvBatchSearch (texts ids : list string) (k r t : Z)
                (res : Py.result (Py.dict Hits))
| EvWrite (topic : Py.value) (h : Hits) (res : Py.result unit).

(** Computations of the driver: they read and change the world, may raise,
    and log their events. *)
Definition M (A : Type) : Type := W -> Py.result A * W * list event.

Definition ret {A} (a : A) : M A := fun w => (inr a, w, []).

Definition bind {A B} (m : M A) (f : A -> M B) : M B :=
  fun w =>
    match m w with
    | (inl e, w', t) => (inl e, w', t)
    | (inr a, w', t) =>
        let '(r, w'', t') := f a w' in (r, w'', t ++ t')
    end.

Definition emit (ev : event) : M unit := fun w => (inr tt, w, [ev]).

Definition lift {A} (r : Py.result A) : M A := fun w => (r, w, []).

(** A call into a collaborator, logged with its result. *)
Definition call {A} (op : W -> Py.result A * W)
           (log : Py.result A -> event) : M A :=
  fun w => let '(r, w') := op w in (r, w', [log r]).

(** The three components of a finished computation. *)
Definition outcome {A} (x : Py.result A * W * list event) : Py.result A :=
  fst (fst x).
Definition world {A} (x : Py.result A * W * list event) : W :=
  snd (fst x).
Definition trace {A} (x : Py.result A * W * list event) : list event :=
  snd x.

End Effects.

Arguments EvEnter {Hits}.
Arguments EvExit {Hits}.
Arguments EvNext {Hits} index topic_id text.
Arguments ret {Hits W A} a _.
Arguments emit {Hits W} ev _.
Arguments lift {Hits W A} r _.

Notation "x <- m ;; k" := (bind m (fun x => k))
  (at level 61, m at next level, right associativity).
Notation "m ;;; k" := (bind m (fun _ => k))
  (at level 61, right associativity).

(** ** The run loop *)

Section Driver.

Variables Hits W : Type.
Variable searcher : Searcher Hits W.
Variable output_writer : OutputWriter Hits W.
Variable args : Args.

(** [len(topics.keys())]. *)
Variable num_topics : Z.

(** The two accumulators of batch mode. *)
Record accum : Type := {
  batch_topics : list string;
  batch_topic_ids : list string
}.

Definition empty : accum := {| batch_topics := []; batch_topic_ids := [] |}.

(** Line 91. *)
Definition single_mode : bool :=
  (batch_size args <=? 1)%Z && (threads args <=? 1)%Z.

(** Line 101: [[(id_, results[id_]) for id_ in batch_topic_ids]]. *)
Fixpoint reproject (ids : list string) (results : Py.dict Hits)
  : Py.result (list (Py.value * Hits)) :=
  match ids with
  | [] => inr []
  | id_ :: ids' =>
      match Py.getitem results id_ with
      | inl e => inl e
      | inr h =>
          match reproject ids' results with
          | inl e => inl e
          | inr rest => inr ((Py.VStr id_, h) :: rest)
          end
      end
  end.

(** Lines 107-109. *)
Fixpoint write_results (results : list (Py.value * Hits)) : M Hits W unit :=
  match results with
  | [] => ret tt
  | (topic, h) :: rest =>
      call (write output_writer topic h) (EvWrite topic h) ;;;
      write_results rest
  end.

(** Lines 90-111: one iteration, from the accumulators at its start to the
    accumulators at its end. The topic is taken from the iterator (one tick
    of the progress bar), then the body runs; [continue] (line 105) skips
    the writes. *)
Definition loop_body (acc : accum) (index : nat) (item : Py.value * string)
  : M Hits W accum :=
  let '(topic_id, text) := item in
  emit (EvNext index topic_id text) ;;;
  if single_mode then
    h <- call (search searcher text (hits args) (rho args))
              (EvSearch text (hits args) (rho args)) ;;
    write_results [(topic_id, h)] ;;;
    ret acc
  else
    let ids := batch_topic_ids acc ++ [Py.str topic_id] in
    let texts := batch_topics acc ++ [text] in
    m <- lift (Py.mod_ (Z.of_nat index + 1) (batch_size args)) ;;
    if (m =? 0)%Z || (Z.of_nat index =? num_topics - 1)%Z then
      results <- call (batch_search searcher texts ids (hits args) (rho args)
                                    (threads args))
                      (EvBatchSearch texts ids (hits args) (rho args)
                                     (threads args)) ;;
      results <- lift (reproject ids results) ;;
      write_results results ;;;
      ret empty
    else
      ret {| batch_topics := texts; batch_topic_ids := ids |}.

(** Line 90: [for index, (topic_id, text) in enumerate(...)]. *)
Fixpoint for_loop (index : nat) (items : list (Py.value * string))
         (acc : accum) : M Hits W accum :=
  match items with
  | [] => ret acc
  | item :: rest =>
      acc' <- loop_body acc index item ;;
      for_loop (S index) rest acc'
  end.

(** Line 87: [with output_writer:]. The writer is entered, the body runs,
    and the writer is exited whether the body returned or raised; an
    exception of the body is raised again after the exit. [__enter__] and
    [__exit__] belong to the output writer, outside this file: they are
    logged as [EvEnter] and [EvExit]. *)
Definition with_output_writer {A} (body : M Hits W A) : M Hits W A :=
  fun w => let '(r, w', t) := body w in (r, w', EvEnter :: t ++ [EvExit]).

(** Lines 87-111. *)
Definition run (query_iterator : list (Py.value * string)) : M Hits W unit :=
  with_output_writer (for_loop 0 query_iterator empty ;;; ret tt).

End Driver.

Arguments empty : clear implicits.

(** ** Observations on a trace *)

Section Observations.

Variables Hits W : Type.

Definition dispatch_of (ev : event Hits) : list (Py.value * Hits) :=
  match ev with
  | EvWrite topic h _ => [(topic, h)]
  | _ => []
  end.

Definition batch_call_of (ev : event Hits)
  : list (list string * list string) :=
  match ev with
  | EvBatchSearch texts ids _ _ _ _ => [(texts, ids)]
  | _ => []
  end.

Definition search_call_of (ev : event Hits) : list string :=
  match ev with
  | EvSearch text _ _ _ => [text]
  | _ => []
  end.

Definition consumed_of (ev : event Hits) : list (Py.value * string) :=
  match ev with
  | EvNext _ topic_id text => [(topic_id, text)]
  | _ => []
  end.

(** The pairs handed to [output_writer.write], in order. *)
Definition dispatches (t : list (event Hits)) : list (Py.value * Hits) :=
  flat_map dispatch_of t.

(** The [(texts, ids)] of each [batch_search] call, in order. *)
Definition batch_calls (t : list (event Hits))
  : list (list string * list string) :=
  flat_map batch_call_of t.

(** The texts of the [search] calls, in order. *)
Definition search_calls (t : list (event Hits)) : list string :=
  flat_map search_call_of t.

(** The topics taken from the query iterator, in order. *)
Definition consumed (t : list (event Hits)) : list (Py.value * string) :=
  flat_map consumed_of t.

(** The exception a searcher call raised, if the event is one. *)
Definition backend_failure (ev : event Hits) : option Py.exn :=
  match ev with
  | EvSearch _ _ _ (inl e) => Some e
  | EvBatchSearch _ _ _ _ _ (inl e) => Some e
  | _ => None
  end.

Definition quiet (ev : event Hits) : Prop := backend_failure ev = None.

(** Entering and exiting the output writer. *)
Definition is_scope (ev : event Hits) : bool :=
  match ev with
  | EvEnter | EvExit => true
  | _ => false
  end.

(** A write that returned. *)
Definition written (p : Py.value * Hits) : event Hits :=
  EvWrite (fst p) (snd p) (inr tt).

(** A property of every event a computation logs. *)
Definition logs (P : event Hits -> Prop) A (m : M Hits W A) : Prop :=
  forall w, Forall P (trace (m w)).

(** A finished computation is faithful to the searcher when a failed
    searcher call can only be its last event, and is then its outcome. *)
Definition faithful A (x : Py.result A * W * list (event Hits)) : Prop :=
  match outcome x with
  | inr _ => Forall quiet (trace x)
  | inl e =>
      Forall quiet (trace x) \/
      exists pre ev, trace x = pre ++ [ev] /\ Forall quiet pre /\
                     backend_failure ev = Some e
  end.

End Observations.

Arguments quiet {Hits} ev.
Arguments dispatch_of {Hits} ev.
Arguments batch_call_of {Hits} ev.
Arguments search_call_of {Hits} ev.
Arguments consumed_of {Hits} ev.
Arguments written {Hits} p.

(** ** Contracts of the collaborators *)

Section Contracts.

Variables Hits W : Type.

(** [search] returns. *)
Definition search_returns (s : Searcher Hits W) : Prop :=
  forall text k r w, exists h w', search s text k r w = (inr h, w').

(** [batch_search] returns a mapping with one entry per submitted id. *)
Definition batch_search_covers (s : Searcher Hits W) : Prop :=
  forall texts ids k r t w, exists d w',
    batch_search s texts ids k r t w = (inr d, w') /\
    Py.wf d /\ incl ids (Py.keys d).

(** [write] returns. *)
Definition write_returns (o : OutputWriter Hits W) : Prop :=
  forall topic h w, exists w', write o topic h w = (inr tt, w').

(** A deterministic backend: the hits of a query are [rank text k r],
    whether it is searched alone or in a batch. *)
Definition deterministic (rank : string -> Z -> Z -> Hits)
           (s : Searcher Hits W) : Prop :=
  (forall text k r w, exists w', search s text k r w = (inr (rank text k r), w')) /\
  (forall texts ids k r t w,
      List.length texts = List.length ids -> NoDup ids ->
      exists d w',
        batch_search s texts ids k r t w = (inr d, w') /\
        Forall2 (fun id_ text => Py.lookup id_ d = Some (rank text k r))
                ids texts).

End Contracts.

(** ** Batching as the design describes it *)

(** Following the design: each topic is appended to the accumulator; after
    appending, the accumulator is closed if its size reaches [b] or the
    topic is the last one of the source. *)
Fixpoint spec_batches {T} (b : nat) (acc : list T) (source : list T)
  : list (list T) :=
  match source with
  | [] => []
  | x :: rest =>
      let acc' := acc ++ [x] in
      if (List.length acc' =? b)%nat || (match rest with [] => true | _ => false end)
      then acc' :: spec_batches b [] rest
      else spec_batches b acc' rest
  end.

(** A batch as the searcher receives it. *)
Definition as_call (batch : list (Py.value * string))
  : list string * list string :=
  (map snd batch, map (fun t => Py.str (fst t)) batch).

(** The topic id as the writer receives it: as read in single mode,
    stringified in batch mode. *)
Definition dispatch_id (args : Args) (topic_id : Py.value) : Py.value :=
  if single_mode args then topic_id else Py.VStr (Py.str topic_id).

(** The topics pending in the accumulators at the start of iteration [i]. *)
Definition pending {T} (b i : nat) (source : list T) : list T :=
  skipn (i - i mod b) (firstn i source).

(** [batch] is a run of consecutive topics of [source]. *)
Definition segment {T} (batch source : list T) : Prop :=
  exists l1 l2, source = l1 ++ batch ++ l2.

(** The accumulators hold exactly the topics [pend], in order. *)
Definition holds (acc : accum) (pend : list (Py.value * string)) : Prop :=
  (batch_topics acc, batch_topic_ids acc) = as_call pend.

(** Single mode as the design describes it: each topic is taken, searched
    at once, and its one result pair written, before the next is taken. *)
Fixpoint single_trace {Hits} (k r : Z) (index : nat)
         (source : list (Py.value * string)) (hs : list Hits)
  : list (event Hits) :=
  match source, hs with
  | (topic_id, text) :: source', h :: hs' =>
      EvNext index topic_id text :: EvSearch text k r (inr h) ::
      EvWrite topic_id h (inr tt) :: single_trace k r (S index) source' hs'
  | _, _ => []
  end.

(** The pair written for a topic carries its stringified id. *)
Definition carries_id {Hits} (t : Py.value * string) (p : Py.value * Hits)
  : Prop :=
  fst p = Py.VStr (Py.str (fst t)).

(** The pair written in batch mode for a topic whose hits are
    [rank text k r]. *)
Definition ranked {Hits} (rank : string -> Z -> Z -> Hits) (k r : Z)
           (t : Py.value * string) (p : Py.value * Hits) : Prop :=
  p = (Py.VStr (Py.str (fst t)), rank (snd t) k r).

(** ** Two runs side by side *)

Section Relations.

Variables Hits W : Type.

(** A relation between the worlds of the two runs. *)
Variable R : W -> W -> Prop.

(** Two finished computations agree: same outcome, same pairs written,
    related worlds. *)
Definition agree A (x1 x2 : Py.result A * W * list (event Hits)) : Prop :=
  outcome x1 = outcome x2 /\
  dispatches (trace x1) = dispatches (trace x2) /\
  R (world x1) (world x2).

(** From related worlds, the two searchers return mappings with the same
    associations (or raise the same exception). *)
Definition same_associations (s1 s2 : Searcher Hits W) : Prop :=
  forall texts ids k r t w1 w2, R w1 w2 ->
    match batch_search s1 texts ids k r t w1,
          batch_search s2 texts ids k r t w2 with
    | (inr d1, w1'), (inr d2, w2') =>
        Py.wf d1 /\ Permutation d1 d2 /\ R w1' w2'
    | (inl e1, w1'), (inl e2, w2') => e1 = e2 /\ R w1' w2'
    | _, _ => False
    end.

(** From related worlds, a write has the same result. *)
Definition writer_respects (ow : OutputWriter Hits W) : Prop :=
  forall topic h w1 w2, R w1 w2 ->
    fst (write ow topic h w1) = fst (write ow topic h w2) /\
    R (snd (write ow topic h w1)) (snd (write ow topic h w2)).

End Relations.

(** ** A test double for the collaborators

    Hits are ranked document ids; the world counts the searcher calls and
    keeps what was written. *)

Module Mock.

Definition Hits : Type := list string.

Record World : Type := { calls : nat; written : list (Py.value * Hits) }.

Definition start : World := {| calls := 0; written := [] |}.

Definition tick (w : World) : World :=
  {| calls := S (calls w); written := written w |}.

Definition rank (text : string) (k r : Z) : Hits :=
  firstn (Z.to_nat k) [append text "-d1"; append text "-d2"; append text "-d3"].

(** [d[k] = v]. *)
Fixpoint setitem {V} (k : string) (v : V) (d : Py.dict V) : Py.dict V :=
  match d with
  | [] => [(k, v)]
  | (k', v') :: d' =>
      if String.eqb k k' then (k', v) :: d' else (k', v') :: setitem k v d'
  end.

(** The mapping a batch call builds: one assignment per id, in order. *)
Fixpoint fill (texts ids : list string) (k r : Z) (d : Py.dict Hits)
  : Py.dict Hits :=
  match ids with
  | [] => d
  | id_ :: ids' =>
      fill (tl texts) ids' k r
           (setitem id_ (rank (hd EmptyString texts) k r) d)
  end.

(** A searcher that answers every query; [shuffle] makes [batch_search]
    return its mapping in reverse insertion order. *)
Definition searcher (shuffle : bool) : Searcher Hits World :=
  {| search := fun text k r w => (inr (rank text k r), tick w);
     batch_search := fun texts ids k r t w =>
       let d := fill texts ids k r [] in
       (inr (if shuffle then rev d else d), tick w) |}.

(** A searcher whose [n]-th call (from 0) raises. *)
Definition failing (n : nat) : Searcher Hits World :=
  {| search := fun text k r w =>
       if (calls w =? n)%nat then (inl (Py.Raised "search failed"), tick w)
       else (inr (rank text k r), tick w);
     batch_search := fun texts ids k r t w =>
       if (calls w =? n)%nat then (inl (Py.Raised "batch_search failed"), tick w)
       else (inr (fill texts ids k r []), tick w) |}.

Definition writer : OutputWriter Hits World :=
  {| write := fun topic h w =>
       (inr tt, {| calls := calls w; written := written w ++ [(topic, h)] |}) |}.

Definition config (b t : Z) : Args :=
  {| index := "index"; rho := 1000000000; ascii := true; query := false;
     topics := "robust04"; hits := 2; topics_format := "default";
     output_format := "trec"; output := None;
     batch_size := b; threads := t |}.

Definition five : list (Py.value * string) :=
  [(Py.VInt 301, "q1"); (Py.VInt 302, "q2"); (Py.VInt 303, "q3");
   (Py.VInt 304, "q4"); (Py.VInt 305, "q5")]%string.

Definition named : list (Py.value * string) :=
  [(Py.VStr "a", "q1"); (Py.VStr "b", "q2"); (Py.VStr "c", "q3")]%string.

End Mock.

(** ** Further observations, for the properties beyond the batching core *)

(** [l1] is an initial part of [l2]. *)
Definition is_prefix {T} (l1 l2 : list T) : Prop := exists l3, l2 = l1 ++ l3.

(** [args] with another [--batch-size]. *)
Definition set_batch_size (args : Args) (b : Z) : Args :=
  {| index := index args; rho := rho args; ascii := ascii args;
     query := query args; topics := topics args; hits := hits args;
     topics_format := topics_format args;
     output_format := output_format args; output := output args;
     batch_size := b; threads := threads args |}.

Section MoreObservations.

Variables Hits W : Type.

(** The exception a call to a collaborator raised, if the event is one:
    a failed [search], [batch_search] or [write]. *)
Definition call_failure (ev : event Hits) : option Py.exn :=
  match ev with
  | EvSearch _ _ _ (inl e) => Some e
  | EvBatchSearch _ _ _ _ _ (inl e) => Some e
  | EvWrite _ _ (inl e) => Some e
  | _ => None
  end.

(** A finished computation stops at a failed call: a failed call can only
    be its last event, and is then its outcome. *)
Definition stops_at_failure A (x : Py.result A * W * list (event Hits))
  : Prop :=
  match outcome x with
  | inr _ => Forall (fun ev => call_failure ev = None) (trace x)
  | inl e =>
      Forall (fun ev => call_failure ev = None) (trace x) \/
      exists pre ev, trace x = pre ++ [ev] /\
                     Forall (fun ev => call_failure ev = None) pre /\
                     call_failure ev = Some e
  end.

(** What the searcher last returned: the hits of a [search] or the mapping
    of a [batch_search]. *)
Definition answer_of (ev : event Hits) : option (Hits + Py.dict Hits) :=
  match ev with
  | EvSearch _ _ _ (inr h) => Some (inl h)
  | EvBatchSearch _ _ _ _ _ (inr d) => Some (inr d)
  | _ => None
  end.

Fixpoint last_answer (t : list (event Hits)) : option (Hits + Py.dict Hits) :=
  match t with
  | [] => None
  | ev :: t' =>
      match last_answer t' with
      | Some a => Some a
      | None => answer_of ev
      end
  end.

(** The pair [(topic, h)] is what the answer holds: the hits of the search,
    or the entry of the mapping for the id [topic]. *)
Definition answers (a : Hits + Py.dict Hits) (topic : Py.value) (h : Hits)
  : Prop :=
  match a with
  | inl h' => h = h'
  | inr d => exists id_, topic = Py.VStr id_ /\ Py.lookup id_ d = Some h
  end.

(** Every write of the trace passes on what the searcher last returned. *)
Definition passes_on (t : list (event Hits)) : Prop :=
  forall pre topic h res post,
    t = pre ++ EvWrite topic h res :: post ->
    exists a, last_answer pre = Some a /\ answers a topic h.

(** A call to the searcher made with the configured parameters; a batch
    call has as many texts as ids, at least one and at most [batch_size]. *)
Definition well_formed_call (args : Args) (ev : event Hits) : Prop :=
  match ev with
  | EvSearch _ k r _ => k = hits args /\ r = rho args
  | EvBatchSearch texts ids k r t _ =>
      k = hits args /\ r = rho args /\ t = threads args /\
      List.length texts = List.length ids /\
      (1 <= Z.of_nat (List.length ids) <= batch_size args)%Z
  | _ => True
  end.

(** An event that is not a failed call. *)
Definition calm (ev : event Hits) : Prop := call_failure ev = None.

(** The topics are taken and their pairs written in order: the topics
    taken are an initial part of [items]; the ids written, followed by the
    ids still in the accumulators when the loop returned, are the ids of
    the topics taken. *)
Definition in_order (args : Args) (acc : accum)
           (items : list (Py.value * string))
           (x : Py.result accum * W * list (event Hits)) : Prop :=
  let c := consumed (trace x) in
  let d := map fst (dispatches (trace x)) in
  let target := map Py.VStr (batch_topic_ids acc) ++
                map (dispatch_id args) (map fst c) in
  is_prefix c items /\
  match outcome x with
  | inr acc' => c = items /\ d ++ map Py.VStr (batch_topic_ids acc') = target
  | inl _ => is_prefix d target
  end.

End MoreObservations.

Arguments calm {Hits} ev.

(** The accumulators are aligned and hold at most [i mod b] topics at the
    start of iteration [i]. *)
Definition fits (b : nat) (acc : accum) (i : nat) : Prop :=
  List.length (batch_topics acc) = List.length (batch_topic_ids acc) /\
  (List.length (batch_topic_ids acc) <= i mod b)%nat.

(** ** More test doubles *)

Module Doubles.

(** A searcher whose mapping lacks the first id of every batch. *)
Definition forgetful : Searcher Mock.Hits Mock.World :=
  {| search := fun text k r w => (inr (Mock.rank text k r), Mock.tick w);
     batch_search := fun texts ids k r t w =>
       (inr (Mock.fill (tl texts) (tl ids) k r []), Mock.tick w) |}.

(** A writer whose [n]-th write (from 0) raises. *)
Definition failing_writer (n : nat) : OutputWriter Mock.Hits Mock.World :=
  {| write := fun topic h w =>
       if (List.length (Mock.written w) =? n)%nat
       then (inl (Py.Raised "disk full"), w)
       else (inr tt, {| Mock.calls := Mock.calls w;
                        Mock.written := Mock.written w ++ [(topic, h)] |}) |}.

End Doubles.

(** ** The output writer as a scoped resource *)

Section Scoped.

Variable Hits : Type.

(** A context manager over the world [W]: [__enter__], and [__exit__]
    which is told the exception of the body (if any) and answers whether
    to suppress it. *)
Record ContextManager (W : Type) : Type := {
  cm_enter : W -> Py.result unit * W;
  cm_exit : option Py.exn -> W -> Py.result bool * W
}.

(** Line 87 in full: the [with] statement of Python. [__enter__] is
    called; if it raises, the body does not run and [__exit__] is not
    called. Otherwise the body runs and [__exit__] is called, whether the
    body returned or raised; an exception of [__exit__] replaces the
    outcome, and an exception of the body is raised again unless
    [__exit__] answers true. *)
Definition with_statement {W} (cm : ContextManager W)
           (body : M Hits W unit) : M Hits W unit :=
  fun w =>
    match cm_enter cm w with
    | (inl e, w1) => (inl e, w1, [EvEnter])
    | (inr _, w1) =>
        let '(r, w2, t) := body w1 in
        let exc := match r with inl e => Some e | inr _ => None end in
        match cm_exit cm exc w2 with
        | (inl e', w3) => (inl e', w3, EvEnter :: t ++ [EvExit])
        | (inr suppress, w3) =>
            (match r with
             | inl e => if suppress then inr tt else inl e
             | inr _ => inr tt
             end, w3, EvEnter :: t ++ [EvExit])
        end
    end.

(** Lines 87-111, with the context manager of the writer made explicit. *)
Definition run_scoped {W} (cm : ContextManager W) (s : Searcher Hits W)
           (ow : OutputWriter Hits W) (args : Args) (num_topics : Z)
           (query_iterator : list (Py.value * string)) : M Hits W unit :=
  with_statement cm
    (for_loop s ow args num_topics 0 query_iterator empty ;;; ret tt).

(** Modelled from the spec: the destination of the output writer
    ([pyserini.output_writer], which is not part of this file). Section 4.3:
    the sink is opened before the first write, each write appends a
    record, and it is finalized and closed at the end of its scope. *)
Inductive file : Type :=
| Unopened
| Opened (records : list (Py.value * Hits))
| Closed (records : list (Py.value * Hits)).

(** Modelled from the spec: what can go wrong with the destination
    (section 7: permission denied, disk full). [is_full] tells, from the
    records already written, whether the next write fails. *)
Record disk : Type := {
  can_open : bool;
  is_full : list (Py.value * Hits) -> bool
}.

Definition permission_denied : Py.exn := Py.Raised "permission denied".
Definition no_space : Py.exn := Py.Raised "no space left on device".
Definition not_open : Py.exn := Py.Raised "write to a file that is not open".

(** Modelled from the spec: [__enter__] of the output writer opens the
    destination, empty. *)
Definition sink_enter (dk : disk) (f : file) : Py.result unit * file :=
  if can_open dk then (inr tt, Opened []) else (inl permission_denied, f).

(** Modelled from the spec: [write] of the output writer appends one
    record to the open destination; it raises when the disk is full (the
    records written stay), and when the destination is not open. *)
Definition sink_write (dk : disk) (topic : Py.value) (h : Hits) (f : file)
  : Py.result unit * file :=
  match f with
  | Opened records =>
      if is_full dk records then (inl no_space, f)
      else (inr tt, Opened (records ++ [(topic, h)]))
  | _ => (inl not_open, f)
  end.

(** Modelled from the spec: [__exit__] of the output writer finalizes and
    closes the destination, and suppresses nothing. *)
Definition sink_exit (exc : option Py.exn) (f : file) : Py.result bool * file :=
  match f with
  | Opened records => (inr false, Closed records)
  | _ => (inr false, f)
  end.

(** The world of a run with this writer: the state [V] of the searcher and
    the destination. The searcher does not touch the destination. *)
Variable V : Type.

Definition on_backend (s : Searcher Hits V) : Searcher Hits (V * file) :=
  {| search := fun text k r w =>
       let '(res, v') := search s text k r (fst w) in (res, (v', snd w));
     batch_search := fun texts ids k r t w =>
       let '(res, v') := batch_search s texts ids k r t (fst w) in
       (res, (v', snd w)) |}.

Definition sink_writer (dk : disk) : OutputWriter Hits (V * file) :=
  {| write := fun topic h w =>
       let '(res, f') := sink_write dk topic h (snd w) in (res, (fst w, f')) |}.

Definition sink_manager (dk : disk) : ContextManager (V * file) :=
  {| cm_enter := fun w =>
       let '(res, f') := sink_enter dk (snd w) in (res, (fst w, f'));
     cm_exit := fun exc w =>
       let '(res, f') := sink_exit exc (snd w) in (res, (fst w, f')) |}.

(** The pairs whose write returned, in order. *)
Definition flushed (t : list (event Hits)) : list (Py.value * Hits) :=
  flat_map (fun ev => match ev with
                      | EvWrite topic h (inr _) => [(topic, h)]
                      | _ => []
                      end) t.

(** A write that failed did so for lack of space: it was not refused for
    want of an open destination. *)
Definition accepted (ev : event Hits) : Prop :=
  match ev with
  | EvWrite _ _ (inl e) => e = no_space
  | _ => True
  end.

(** From an open destination, the computation leaves it open, holding in
    addition the pairs it wrote, and none of its writes is refused. *)
Definition stays_open A (m : M Hits (V * file) A) : Prop :=
  forall v records,
    let x := m (v, Opened records) in
    snd (world x) = Opened (records ++ flushed (trace x)) /\
    Forall accepted (trace x).

End Scoped.

Arguments Unopened {Hits}.
Arguments permission_denied : clear implicits.
Arguments no_space : clear implicits.
Arguments not_open : clear implicits.

(** ** Laws of the effects *)

Section Laws.

Variables Hits W : Type.
Implicit Types w : W.

Lemma result_eta A (x : Py.result A * W * list (event Hits)) :
  x = (outcome x, world x, trace x).
Proof. destruct x as [[r w] t]; reflexivity. Qed.

Lemma bind_inr A B (m : M Hits W A) (f : A -> M Hits W B) w a w1 t1 :
  m w = (inr a, w1, t1) ->
  bind m f w = (outcome (f a w1), world (f a w1), t1 ++ trace (f a w1)).
Proof.
  intros Hm; unfold bind; rewrite Hm.
  destruct (f a w1) as [[r w2] t2]; reflexivity.
Qed.

Lemma bind_inl A B (m : M Hits W A) (f : A -> M Hits W B) w e w1 t1 :
  m w = (inl e, w1, t1) -> bind m f w = (inl e, w1, t1).
Proof. intros Hm; unfold bind; rewrite Hm; reflexivity. Qed.

Lemma bind_ret_l A B (a : A) (f : A -> M Hits W B) w :
  bind (ret a) f w = f a w.
Proof.
  unfold bind, ret; destruct (f a w) as [[r w2] t2]; reflexivity.
Qed.

Lemma bind_ext A B (m : M Hits W A) (f g : A -> M Hits W B) w :
  (forall a w', f a w' = g a w') -> bind m f w = bind m g w.
Proof.
  intros Hfg; unfold bind.
  destruct (m w) as [[[e | a] w1] t1]; [reflexivity | rewrite Hfg; reflexivity].
Qed.

Lemma bind_assoc A B C (m : M Hits W A) (f : A -> M Hits W B)
      (g : B -> M Hits W C) w :
  bind (bind m f) g w = bind m (fun a => bind (f a) g) w.
Proof.
  unfold bind.
  destruct (m w) as [[[e | a] w1] t1]; [reflexivity |].
  destruct (f a w1) as [[[e | b] w2] t2]; [reflexivity |].
  destruct (g b w2) as [[r w3] t3]; rewrite app_assoc; reflexivity.
Qed.

Lemma logs_bind P A B (m : M Hits W A) (f : A -> M Hits W B) :
  logs P m -> (forall a, logs P (f a)) -> logs P (bind m f).
Proof.
  intros Hm Hf w; specialize (Hm w); unfold bind.
  destruct (m w) as [[[e | a] w1] t1]; [exact Hm |].
  specialize (Hf a w1); destruct (f a w1) as [[r w2] t2].
  apply Forall_app; split; assumption.
Qed.

Lemma logs_ret P A (a : A) : logs P (ret (Hits:=Hits) (W:=W) a).
Proof. intros w; constructor. Qed.

Lemma logs_lift P A (r : Py.result A) : logs P (lift (Hits:=Hits) (W:=W) r).
Proof. intros w; constructor. Qed.

Lemma logs_emit (P : event Hits -> Prop) ev : P ev -> logs P (emit (W:=W) ev).
Proof. intros H w; repeat constructor; exact H. Qed.

Lemma logs_call (P : event Hits -> Prop) A (op : W -> Py.result A * W) log :
  (forall r, P (log r)) -> logs P (call op log).
Proof.
  intros H w; unfold call; destruct (op w) as [r w1].
  repeat constructor; apply H.
Qed.

Lemma flat_map_nil A B (f : A -> list B) l :
  Forall (fun x => f x = []) l -> flat_map f l = [].
Proof.
  induction 1 as [| x l Hx _ IH]; simpl; [reflexivity |].
  rewrite Hx, IH; reflexivity.
Qed.

End Laws.

(** ** What the loop can log, whatever its collaborators do *)

Section LoopEvents.

Variables Hits W : Type.
Variable s : Searcher Hits W.
Variable ow : OutputWriter Hits W.
Variable args : Args.
Variable n : Z.

Variable P : event Hits -> Prop.
Hypothesis Pnext : forall i topic_id text, P (EvNext i topic_id text).
Hypothesis Pwrite : forall topic h res, P (EvWrite topic h res).
Hypothesis Psearch :
  single_mode args = true -> forall text k r res, P (EvSearch text k r res).
Hypothesis Pbatch :
  single_mode args = false ->
  forall texts ids k r t res, P (EvBatchSearch texts ids k r t res).

Lemma logs_write_results rs : logs P (write_results ow rs).
Proof.
  induction rs as [| [topic h] rs IH]; simpl.
  - apply logs_ret.
  - apply logs_bind; [apply logs_call; intros; apply Pwrite | intros _; exact IH].
Qed.

Lemma logs_loop_body acc i item : logs P (loop_body s ow args n acc i item).
Proof.
  destruct item as [topic_id text]; unfold loop_body.
  apply logs_bind; [apply logs_emit, Pnext | intros _].
  destruct (single_mode args) eqn:Hmode.
  - apply logs_bind; [apply logs_call; intros; apply Psearch; reflexivity |].
    intros h. apply logs_bind; [apply logs_write_results | intros _; apply logs_ret].
  - apply logs_bind; [apply logs_lift | intros m].
    destruct (_ || _).
    + apply logs_bind; [apply logs_call; intros; apply Pbatch; reflexivity |].
      intros d. apply logs_bind; [apply logs_lift | intros rs].
      apply logs_bind; [apply logs_write_results | intros _; apply logs_ret].
    + apply logs_ret.
Qed.

Lemma logs_for_loop items : forall i acc, logs P (for_loop s ow args n i items acc).
Proof.
  induction items as [| item rest IH]; intros i acc; simpl.
  - apply logs_ret.
  - apply logs_bind; [apply logs_loop_body | intros acc'; apply IH].
Qed.

End LoopEvents.

(** ** The scope of the output writer *)

Section Scope.

Variables Hits W : Type.
Variable s : Searcher Hits W.
Variable ow : OutputWriter Hits W.
Variable args : Args.
Variable n : Z.

Lemma run_unfold src w :
  let x := for_loop s ow args n 0 src (empty) w in
  run s ow args n src w =
  (match outcome x with inl e => inl e | inr _ => inr tt end,
   world x, EvEnter :: trace x ++ [EvExit]).
Proof.
  unfold run, with_output_writer, bind; simpl.
  destruct (for_loop s ow args n 0 src empty w) as [[[e | acc] w1] t1]; simpl.
  - reflexivity.
  - rewrite app_nil_r; reflexivity.
Qed.

Lemma run_body_unscoped src w :
  Forall (fun ev => is_scope ev = false)
         (trace (for_loop s ow args n 0 src empty w)).
Proof. apply logs_for_loop; intros; reflexivity. Qed.

End Scope.

(** ** Failures of the searcher *)

Section Failures.

Variables Hits W : Type.

Lemma faithful_bind A B (m : M Hits W A) (f : A -> M Hits W B) :
  (forall w, faithful (m w)) -> (forall a w, faithful (f a w)) ->
  forall w, faithful (bind m f w).
Proof.
  intros Hm Hf w; specialize (Hm w); unfold bind.
  destruct (m w) as [[[e | a] w1] t1]; [exact Hm |].
  specialize (Hf a w1); destruct (f a w1) as [[[e | b] w2] t2];
    unfold faithful in *; cbn [outcome trace fst snd] in *.
  - destruct Hf as [Hq | (pre & ev & -> & Hq & He)].
    + left; apply Forall_app; split; assumption.
    + right; exists (t1 ++ pre), ev; rewrite app_assoc.
      repeat split; [apply Forall_app; split; assumption | exact He].
  - apply Forall_app; split; assumption.
Qed.

Lemma faithful_quiet A (m : M Hits W A) :
  logs quiet m -> forall w, faithful (m w).
Proof.
  intros H w; specialize (H w); unfold faithful.
  destruct (outcome (m w)); [left |]; exact H.
Qed.

Lemma faithful_search (op : W -> Py.result Hits * W) text k r :
  forall w, faithful (call op (EvSearch text k r) w).
Proof.
  intros w; unfold call, faithful; destruct (op w) as [[e | h] w1];
    cbn [outcome trace fst snd].
  - right; exists [], (EvSearch text k r (inl e)); repeat constructor.
  - repeat constructor.
Qed.

Lemma faithful_batch_search (op : W -> Py.result (Py.dict Hits) * W)
      texts ids k r t :
  forall w, faithful (call op (EvBatchSearch texts ids k r t) w).
Proof.
  intros w; unfold call, faithful; destruct (op w) as [[e | d] w1];
    cbn [outcome trace fst snd].
  - right; exists [], (EvBatchSearch texts ids k r t (inl e)); repeat constructor.
  - repeat constructor.
Qed.

Variable s : Searcher Hits W.
Variable ow : OutputWriter Hits W.
Variable args : Args.
Variable n : Z.

Lemma quiet_write_results rs : logs quiet (write_results ow rs).
Proof.
  induction rs as [| [topic h] rs IH]; simpl.
  - apply logs_ret.
  - apply logs_bind; [apply logs_call; reflexivity | intros _; exact IH].
Qed.

Lemma faithful_loop_body acc i item w :
  faithful (loop_body s ow args n acc i item w).
Proof.
  revert w; destruct item as [topic_id text]; unfold loop_body.
  apply faithful_bind; [apply faithful_quiet, logs_emit; reflexivity | intros _].
  destruct (single_mode args).
  - apply faithful_bind; [apply faithful_search | intros h].
    apply faithful_quiet, logs_bind;
      [apply quiet_write_results | intros _; apply logs_ret].
  - apply faithful_bind; [apply faithful_quiet, logs_lift | intros m].
    destruct (_ || _); [| apply faithful_quiet, logs_ret].
    apply faithful_bind; [apply faithful_batch_search | intros d].
    apply faithful_quiet, logs_bind; [apply logs_lift | intros rs].
    apply logs_bind; [apply quiet_write_results | intros _; apply logs_ret].
Qed.

Lemma faithful_for_loop items : forall i acc w,
    faithful (for_loop s ow args n i items acc w).
Proof.
  induction items as [| item rest IH]; intros i acc; simpl.
  - apply faithful_quiet, logs_ret.
  - apply faithful_bind; [apply faithful_loop_body | intros acc'; apply IH].
Qed.

Lemma failure_is_last (pre post p : list (event Hits)) ev ev' :
  pre ++ ev :: post = p ++ [ev'] -> Forall quiet p -> ~ quiet ev ->
  post = [] /\ ev = ev'.
Proof.
  intros Heq Hq Hev.
  destruct (exists_last (l:=ev :: post)) as (l & a & Hl); [discriminate |].
  rewrite Hl, app_assoc in Heq. apply app_inj_tail in Heq as [<- <-].
  destruct post as [| b post].
  - change [ev] with ([] ++ [ev]) in Hl.
    apply app_inj_tail in Hl as [_ <-]; split; reflexivity.
  - exfalso; apply Hev.
    destruct l as [| c l]; [discriminate |].
    injection Hl as <- _.
    apply Forall_app in Hq as [_ Hq]; inversion Hq; assumption.
Qed.

End Failures.

(** C6: a failed [search] or [batch_search] is not caught by the loop. If
    the searcher raises [e] on some call of a run, the run raises [e] and
    the only event after the failed call is the exit of the output writer:
    no retry, no further topic, no further write. *)
Theorem backend_errors_abort_the_run :
  forall Hits W (s : Searcher Hits W) (ow : OutputWriter Hits W)
         (args : Args) (n : Z) (src : list (Py.value * string)) (w : W)
         (pre post : list (event Hits)) (ev : event Hits) (e : Py.exn),
    trace (run s ow args n src w) = pre ++ ev :: post ->
    backend_failure ev = Some e ->
    outcome (run s ow args n src w) = inl e /\ post = [EvExit].
Proof.
  intros Hits W s ow args n src w pre post ev e Ht Hev.
  rewrite run_unfold in *; cbn [outcome trace fst snd] in *.
  pose proof (faithful_for_loop s ow args n src 0 empty w) as Hf.
  set (x := for_loop s ow args n 0 src empty w) in *.
  assert (Hnq : ~ quiet ev) by (unfold quiet; rewrite Hev; discriminate).
  destruct pre as [| ev0 pre]; simpl in Ht.
  { injection Ht as <- _; discriminate. }
  injection Ht as _ Ht.
  destruct (exists_last (l:=ev :: post)) as (l & a & Hl); [discriminate |].
  rewrite Hl, app_assoc in Ht. apply app_inj_tail in Ht as [Ht <-].
  destruct l as [| ev1 post'].
  { injection Hl as -> _; discriminate. }
  simpl in Hl; injection Hl as <- ->.
  assert (Hin : ~ Forall quiet (trace x)).
  { rewrite Ht; intros H; apply Forall_app in H as [_ H].
    inversion H; contradiction. }
  unfold faithful in Hf. destruct (outcome x) as [e' | acc].
  - destruct Hf as [Hq | (p & ev' & Hp & Hq & He)]; [contradiction |].
    rewrite Ht in Hp. apply failure_is_last in Hp as [-> <-]; try assumption.
    split; [congruence | reflexivity].
  - contradiction.
Qed.

(** ** Single mode *)

Section Single.

Variables Hits W : Type.
Variable s : Searcher Hits W.
Variable ow : OutputWriter Hits W.
Variable args : Args.
Variable n : Z.

Lemma write_results_returns :
  write_returns ow ->
  forall rs w, exists w',
    write_results ow rs w = (inr tt, w', map written rs).
Proof.
  intros Hw; induction rs as [| [topic h] rs IH]; intros w; simpl.
  - exists w; reflexivity.
  - destruct (Hw topic h w) as [w1 Hw1]. destruct (IH w1) as [w2 Hw2].
    exists w2. unfold bind, call; rewrite Hw1, Hw2; reflexivity.
Qed.

(** What is known of the hits of a query. *)
Variable Good : string -> Hits -> Prop.

Hypothesis Hmode : single_mode args = true.
Hypothesis Hsearch :
  forall text w, exists h w',
    search s text (hits args) (rho args) w = (inr h, w') /\ Good text h.
Hypothesis Hwrite : write_returns ow.

Lemma loop_body_single acc i topic_id text w :
  exists h w',
    Good text h /\
    loop_body s ow args n acc i (topic_id, text) w =
    (inr acc, w',
     [EvNext i topic_id text; EvSearch text (hits args) (rho args) (inr h);
      EvWrite topic_id h (inr tt)]).
Proof.
  destruct (Hsearch text w) as (h & w1 & Hs & Hg).
  destruct (Hwrite topic_id h w1) as (w2 & Hw).
  exists h, w2; split; [exact Hg |].
  unfold loop_body; rewrite Hmode.
  unfold bind, emit, call, ret; cbn [write_results].
  unfold bind, call, ret. rewrite Hs, Hw; reflexivity.
Qed.

Lemma for_loop_single items : forall i acc w,
    exists hs w',
      Forall2 Good (map snd items) hs /\
      for_loop s ow args n i items acc w =
      (inr acc, w', single_trace (hits args) (rho args) i items hs).
Proof.
  induction items as [| [topic_id text] rest IH]; intros i acc w.
  - exists [], w; split; [constructor | reflexivity].
  - destruct (loop_body_single acc i topic_id text w) as (h & w1 & Hg & Hb).
    destruct (IH (S i) acc w1) as (hs & w2 & Hgs & Hl).
    exists (h :: hs), w2; split; [constructor; assumption |].
    cbn [for_loop]. erewrite bind_inr by exact Hb. rewrite Hl; reflexivity.
Qed.

End Single.

Section SingleTrace.

Variable Hits : Type.

Lemma dispatches_single_trace k r (src : list (Py.value * string)) :
  forall (hs : list Hits) i,
    List.length hs = List.length src ->
    dispatches (single_trace k r i src hs) = combine (map fst src) hs.
Proof.
  induction src as [| [topic_id text] src IH]; intros hs i Hlen;
    destruct hs as [| h hs]; try discriminate; simpl in *.
  - reflexivity.
  - f_equal. apply IH. congruence.
Qed.

Lemma consumed_single_trace k r (src : list (Py.value * string)) :
  forall (hs : list Hits) i,
    List.length hs = List.length src -> consumed (single_trace k r i src hs) = src.
Proof.
  induction src as [| [topic_id text] src IH]; intros hs i Hlen;
    destruct hs as [| h hs]; try discriminate; simpl in *.
  - reflexivity.
  - f_equal. apply IH. congruence.
Qed.

End SingleTrace.


(** ** Re-projection *)

Section Reprojection.

Variable Hits : Type.
Implicit Types (d : Py.dict Hits) (ids : list string).

Lemma lookup_in d k :
  In k (Py.keys d) -> exists v, Py.lookup k d = Some v.
Proof.
  induction d as [| [k' v'] d IH]; simpl; [contradiction |].
  intros [-> | Hin].
  - rewrite String.eqb_refl; eauto.
  - destruct (String.eqb k k'); eauto.
Qed.

Lemma lookup_some_in d k v :
  Py.lookup k d = Some v -> In k (Py.keys d).
Proof.
  induction d as [| [k' v'] d IH]; simpl; [discriminate |].
  destruct (String.eqb_spec k k') as [-> | Hne]; [left; reflexivity |].
  right; auto.
Qed.

Lemma reproject_total ids d :
  incl ids (Py.keys d) ->
  exists rs,
    reproject ids d = inr rs /\
    map fst rs = map Py.VStr ids /\
    Forall2 (fun id_ p => Py.lookup id_ d = Some (snd p)) ids rs.
Proof.
  induction ids as [| id_ ids IH]; intros Hincl; simpl.
  - exists []; repeat split; constructor.
  - destruct (@lookup_in d id_) as [h Hh]; [apply Hincl; left; reflexivity |].
    destruct IH as (rs & Hr & Hfst & Hall).
    { intros k Hk; apply Hincl; right; exact Hk. }
    exists ((Py.VStr id_, h) :: rs).
    unfold Py.getitem; rewrite Hh, Hr; simpl.
    repeat split; [congruence | constructor; assumption].
Qed.

(** A key that is missing raises [KeyError] for the first such key. *)
Lemma reproject_missing ids d k :
  ~ In k (Py.keys d) -> In k ids -> exists k', reproject ids d = inl (Py.KeyError k').
Proof.
  intros Hk; induction ids as [| id_ ids IH]; simpl; [contradiction |].
  intros Hin. unfold Py.getitem.
  destruct (Py.lookup id_ d) as [h |] eqn:Hh; [| eauto].
  destruct Hin as [-> | Hin].
  - apply lookup_some_in in Hh; contradiction.
  - destruct (IH Hin) as [k' ->]; eauto.
Qed.

Lemma lookup_perm d1 d2 k :
  Py.wf d1 -> Permutation d1 d2 -> Py.lookup k d1 = Py.lookup k d2.
Proof.
  intros Hwf Hp; revert Hwf.
  induction Hp as [| [k' v] l l' Hp IH | [k1 v1] [k2 v2] l | l l' l'' Hp1 IH1 Hp2 IH2];
    intros Hwf; simpl.
  - reflexivity.
  - inversion Hwf; subst. rewrite IH by assumption. reflexivity.
  - destruct (String.eqb_spec k k2) as [E2 | N2];
      destruct (String.eqb_spec k k1) as [E1 | N1]; try reflexivity.
    exfalso. inversion Hwf as [| ? ? Hnin _]; subst.
    apply Hnin; left; reflexivity.
  - rewrite IH1 by assumption. apply IH2.
    unfold Py.wf, Py.keys in *.
    eapply Permutation_NoDup; [apply Permutation_map; exact Hp1 | exact Hwf].
Qed.

Lemma reproject_perm ids d1 d2 :
  Py.wf d1 -> Permutation d1 d2 -> reproject ids d1 = reproject ids d2.
Proof.
  intros Hwf Hp; induction ids as [| id_ ids IH]; simpl; [reflexivity |].
  unfold Py.getitem. rewrite (@lookup_perm d1 d2 id_ Hwf Hp), IH. reflexivity.
Qed.

Lemma reproject_ranked ids d (hs : list Hits) :
  Forall2 (fun id_ h => Py.lookup id_ d = Some h) ids hs ->
  reproject ids d = inr (combine (map Py.VStr ids) hs).
Proof.
  induction 1 as [| id_ h ids hs Hh _ IH]; simpl; [reflexivity |].
  unfold Py.getitem; rewrite Hh, IH; reflexivity.
Qed.

End Reprojection.

(** C10: when the mapping returned by [batch_search] has an entry for
    every submitted id, every lookup [results[id_]] of the re-projection
    succeeds: re-projection returns (it raises no [KeyError]), with one pair
    per id of [batch_topic_ids], in that order, each carrying the hits the
    mapping holds for its id. *)
Theorem reprojection_total :
  forall Hits (ids : list string) (results : Py.dict Hits),
    incl ids (Py.keys results) ->
    exists pairs,
      reproject ids results = inr pairs /\
      map fst pairs = map Py.VStr ids /\
      Forall2 (fun id_ p => Py.getitem results id_ = inr (snd p)) ids pairs.
Proof.
  intros Hits ids results Hincl.
  destruct (@reproject_total Hits ids results Hincl) as (rs & Hr & Hfst & Hall).
  exists rs; repeat split; try assumption.
  eapply Forall2_impl; [| exact Hall].
  intros id_ p Hl; unfold Py.getitem; rewrite Hl; reflexivity.
Qed.

(** ** Batch mode *)

Section Arithmetic.

Lemma succ_mod (i b : nat) :
  (b <> 0)%nat ->
  (S i mod b = if (i mod b + 1 =? b) then 0 else i mod b + 1)%nat.
Proof.
  intros Hb.
  pose proof (Nat.div_mod_eq i b) as Hdiv.
  pose proof (Nat.mod_upper_bound i b Hb) as Hlt.
  destruct (Nat.eqb_spec (i mod b + 1) b) as [Heq | Hne]; symmetry.
  - apply Nat.mod_unique with (q := S (i / b)); lia.
  - apply Nat.mod_unique with (q := (i / b)%nat); lia.
Qed.

(** The flush test on the global index, against the size of the
    accumulator after appending. *)
Lemma flush_test (i b : nat) :
  (1 <= b)%nat ->
  ((Z.of_nat i + 1) mod Z.of_nat b =? 0)%Z = (i mod b + 1 =? b)%nat.
Proof.
  intros Hb.
  replace (Z.of_nat i + 1)%Z with (Z.of_nat (S i)) by lia.
  rewrite <- Nat2Z.inj_mod, succ_mod by lia.
  pose proof (Nat.mod_upper_bound i b ltac:(lia)).
  destruct (Nat.eqb_spec (i mod b + 1) b).
  - reflexivity.
  - apply Z.eqb_neq; lia.
Qed.

End Arithmetic.

Section TraceAlgebra.

Variable Hits : Type.
Implicit Types (t : list (event Hits)) (rs : list (Py.value * Hits)).

Lemma dispatches_written rs : dispatches (map written rs) = rs.
Proof.
  induction rs as [| [topic h] rs IH]; simpl; [reflexivity |].
  f_equal; exact IH.
Qed.

Lemma batch_calls_written rs : batch_calls (map written rs) = [].
Proof. induction rs as [| [topic h] rs IH]; simpl; [reflexivity | exact IH]. Qed.

Lemma consumed_written rs : consumed (map (@written Hits) rs) = [].
Proof. induction rs as [| [topic h] rs IH]; simpl; [reflexivity | exact IH]. Qed.

Lemma dispatches_app t1 t2 :
  dispatches (t1 ++ t2) = dispatches t1 ++ dispatches t2.
Proof. apply flat_map_app. Qed.

Lemma batch_calls_app t1 t2 :
  batch_calls (t1 ++ t2) = batch_calls t1 ++ batch_calls t2.
Proof. apply flat_map_app. Qed.

Lemma consumed_app t1 t2 : consumed (t1 ++ t2) = consumed t1 ++ consumed t2.
Proof. apply flat_map_app. Qed.

End TraceAlgebra.

(** Enter the batch branch of the body, with the modulo defined. *)
Ltac batch_branch Hmode Hb :=
  unfold loop_body; rewrite Hmode, Hb; unfold Py.mod_;
  replace (Z.of_nat _ =? 0)%Z with false by (symmetry; apply Z.eqb_neq; lia).

Section Batch.

Variables Hits W : Type.
Variable s : Searcher Hits W.
Variable ow : OutputWriter Hits W.
Variable args : Args.
Variable n : Z.
Variable b : nat.

Hypothesis Hmode : single_mode args = false.
Hypothesis Hb : batch_size args = Z.of_nat b.
Hypothesis Hb1 : (1 <= b)%nat.

(** The iteration keeps accumulating. *)
Lemma loop_body_keep acc i topic_id text w :
  (i mod b + 1 <> b)%nat -> Z.of_nat i <> (n - 1)%Z ->
  loop_body s ow args n acc i (topic_id, text) w =
  (inr {| batch_topics := batch_topics acc ++ [text];
          batch_topic_ids := batch_topic_ids acc ++ [Py.str topic_id] |},
   w, [EvNext i topic_id text]).
Proof.
  intros Hfull Hlast. batch_branch Hmode Hb.
  unfold bind, emit, lift, ret; cbn [fst snd app].
  rewrite flush_test by exact Hb1.
  apply Nat.eqb_neq in Hfull; apply Z.eqb_neq in Hlast.
  rewrite Hfull, Hlast; reflexivity.
Qed.

(** The iteration closes the batch, searches it and writes its pairs. *)
Lemma loop_body_flush acc i topic_id text w d w1 rs :
  ((i mod b + 1 = b)%nat \/ Z.of_nat i = (n - 1)%Z) ->
  write_returns ow ->
  let texts := batch_topics acc ++ [text] in
  let ids := batch_topic_ids acc ++ [Py.str topic_id] in
  batch_search s texts ids (hits args) (rho args) (threads args) w
  = (inr d, w1) ->
  reproject ids d = inr rs ->
  exists w2,
    loop_body s ow args n acc i (topic_id, text) w =
    (inr empty, w2,
     EvNext i topic_id text ::
     EvBatchSearch texts ids (hits args) (rho args) (threads args) (inr d) ::
     map written rs).
Proof.
  intros Hflush Hw texts ids Hs Hr.
  destruct (write_results_returns Hw rs w1) as [w2 Hw2].
  exists w2. batch_branch Hmode Hb.
  unfold bind at 1 2, emit, lift; cbn [fst snd].
  rewrite flush_test by exact Hb1.
  replace ((i mod b + 1 =? b)%nat || (Z.of_nat i =? n - 1)%Z) with true.
  2:{ symmetry; apply orb_true_iff.
      destruct Hflush as [H | H]; [left; apply Nat.eqb_eq | right; apply Z.eqb_eq];
        exact H. }
  unfold bind, call, lift, ret. fold texts ids. rewrite Hs, Hr, Hw2.
  cbn [app]. rewrite app_nil_r. reflexivity.
Qed.

End Batch.

Section BatchRuns.

Variables Hits W : Type.
Variable s : Searcher Hits W.
Variable ow : OutputWriter Hits W.
Variable args : Args.
Variable n : Z.
Variable b : nat.

Hypothesis Hmode : single_mode args = false.
Hypothesis Hb : batch_size args = Z.of_nat b.
Hypothesis Hb1 : (1 <= b)%nat.
Hypothesis Hw : write_returns ow.

Variable src : list (Py.value * string).

(** What is known of the pair written for a topic. *)
Variable Good : Py.value * string -> Py.value * Hits -> Prop.

Hypothesis Hcall :
  forall batch w, segment batch src ->
    exists d w1 rs,
      batch_search s (fst (as_call batch)) (snd (as_call batch))
                   (hits args) (rho args) (threads args) w = (inr d, w1) /\
      reproject (snd (as_call batch)) d = inr rs /\
      Forall2 Good batch rs.

Lemma holds_nil acc : holds acc [] -> acc = empty.
Proof.
  destruct acc as [texts ids]; unfold holds, as_call; simpl.
  intros H; injection H as -> ->; reflexivity.
Qed.

Lemma holds_snoc acc pend topic_id text :
  holds acc pend ->
  (batch_topics acc ++ [text], batch_topic_ids acc ++ [Py.str topic_id]) =
  as_call (pend ++ [(topic_id, text)]).
Proof.
  unfold holds, as_call; intros H; injection H as -> ->.
  rewrite !map_app; reflexivity.
Qed.

(** Closing the batch [pend ++ [(topic_id, text)]]. *)
Lemma loop_body_close acc pend l1 rest i topic_id text w :
  src = l1 ++ pend ++ (topic_id, text) :: rest ->
  holds acc pend ->
  ((i mod b + 1 = b)%nat \/ Z.of_nat i = (n - 1)%Z) ->
  let batch := pend ++ [(topic_id, text)] in
  exists w2 tr rs,
    loop_body s ow args n acc i (topic_id, text) w = (inr empty, w2, tr) /\
    batch_calls tr = [as_call batch] /\
    dispatches tr = rs /\ Forall2 Good batch rs /\
    consumed tr = [(topic_id, text)].
Proof.
  intros Hsrc Hacc Hflush batch.
  destruct (Hcall (batch:=batch) w) as (d & w1 & rs & Hs & Hr & Hg).
  { exists l1, rest. subst batch. rewrite Hsrc, <- app_assoc. reflexivity. }
  pose proof (holds_snoc topic_id text Hacc) as Hsnoc. fold batch in Hsnoc.
  unfold as_call in Hsnoc, Hs, Hr |- *. cbn [fst snd] in Hs, Hr.
  injection Hsnoc as Htexts Hids. rewrite <- Htexts, <- Hids in Hs.
  rewrite <- Hids in Hr.
  destruct (@loop_body_flush Hits W s ow args n b Hmode Hb Hb1 acc i topic_id
                             text w d w1 rs Hflush Hw Hs Hr)
    as [w2 Hbody].
  eexists w2, _, rs; split; [exact Hbody |].
  rewrite <- Htexts, <- Hids.
  cbn [batch_calls dispatches consumed flat_map batch_call_of dispatch_of
       consumed_of app].
  fold (batch_calls (map written rs)) (dispatches (map written rs))
       (consumed (map written rs)).
  rewrite batch_calls_written, dispatches_written, consumed_written.
  repeat split; assumption.
Qed.

Lemma for_loop_batch items : forall i acc pend l1 w,
    src = l1 ++ pend ++ items ->
    holds acc pend ->
    List.length pend = (i mod b)%nat ->
    n = Z.of_nat (i + List.length items) ->
    (items = [] -> pend = []) ->
    exists w' tr,
      for_loop s ow args n i items acc w = (inr empty, w', tr) /\
      batch_calls tr = map as_call (spec_batches b pend items) /\
      Forall2 Good (pend ++ items) (dispatches tr) /\
      consumed tr = items.
Proof.
  induction items as [| [topic_id text] rest IH];
    intros i acc pend l1 w Hsrc Hacc Hlen Hn Hnil.
  - rewrite (Hnil eq_refl) in *. apply holds_nil in Hacc; subst acc.
    exists w, []; repeat split; constructor.
  - assert (Hsize : List.length (pend ++ [(topic_id, text)]) = (i mod b + 1)%nat)
      by (rewrite length_app; simpl; lia).
    cbn [for_loop spec_batches]. rewrite Hsize.
    destruct (Nat.eqb_spec (i mod b + 1) b) as [Hfull | Hpart].
    + (* the batch is full *)
      destruct (@loop_body_close acc pend l1 rest i topic_id text w Hsrc Hacc)
        as (w2 & tr & rs & Hbody & Hbc & Hd & Hg & Hc); [left; exact Hfull |].
      destruct (IH (S i) empty [] (l1 ++ pend ++ [(topic_id, text)]) w2)
        as (w' & tr' & Hloop & Hbc' & Hg' & Hc').
      { rewrite Hsrc, <- !app_assoc; reflexivity. }
      { reflexivity. }
      { rewrite succ_mod by lia. apply Nat.eqb_eq in Hfull. rewrite Hfull.
        reflexivity. }
      { simpl in Hn; lia. }
      { reflexivity. }
      exists w', (tr ++ tr'). erewrite bind_inr by exact Hbody.
      rewrite Hloop; cbn [outcome world trace fst snd orb].
      rewrite batch_calls_app, dispatches_app, consumed_app, Hbc, Hbc', Hc, Hc', Hd.
      repeat split.
      replace (pend ++ (topic_id, text) :: rest)
        with ((pend ++ [(topic_id, text)]) ++ rest)
        by (rewrite <- app_assoc; reflexivity).
      apply Forall2_app; assumption.
    + destruct rest as [| next rest].
      * (* the last topic closes a partial batch *)
        destruct (@loop_body_close acc pend l1 [] i topic_id text w Hsrc Hacc)
          as (w2 & tr & rs & Hbody & Hbc & Hd & Hg & Hc).
        { right. simpl in Hn. lia. }
        exists w2, tr. erewrite bind_inr by exact Hbody.
        cbn [for_loop ret outcome world trace fst snd orb map spec_batches].
        rewrite app_nil_r, Hbc, Hc, Hd. repeat split. exact Hg.
      * (* the topic stays in the accumulator *)
        cbn [orb].
        destruct (IH (S i)
                     {| batch_topics := batch_topics acc ++ [text];
                        batch_topic_ids := batch_topic_ids acc ++ [Py.str topic_id] |}
                     (pend ++ [(topic_id, text)]) l1 w)
          as (w' & tr' & Hloop & Hbc' & Hg' & Hc').
        { rewrite Hsrc, <- !app_assoc; reflexivity. }
        { apply holds_snoc; exact Hacc. }
        { rewrite succ_mod by lia. apply Nat.eqb_neq in Hpart. rewrite Hpart.
          exact Hsize. }
        { simpl in Hn |- *; lia. }
        { discriminate. }
        exists w', (EvNext i topic_id text :: tr').
        erewrite bind_inr
          by (apply (@loop_body_keep Hits W s ow args n b Hmode Hb Hb1);
              [exact Hpart |];
              simpl in Hn; lia).
        rewrite Hloop; cbn [outcome world trace fst snd app].
        repeat split.
        -- exact Hbc'.
        -- rewrite <- app_assoc in Hg'. exact Hg'.
        -- simpl. f_equal. exact Hc'.
Qed.

(** A whole run in batch mode. *)
Lemma run_batch w :
  n = Z.of_nat (List.length src) ->
  let x := run s ow args n src w in
  outcome x = inr tt /\
  batch_calls (trace x) = map as_call (spec_batches b [] src) /\
  Forall2 Good src (dispatches (trace x)) /\
  consumed (trace x) = src.
Proof.
  intros Hn x; subst x.
  destruct (@for_loop_batch src 0%nat empty [] [] w)
    as (w' & tr & Hloop & Hbc & Hg & Hc);
    try solve [reflexivity | exact Hn].
  { rewrite Nat.Div0.mod_0_l; reflexivity. }
  rewrite run_unfold, Hloop; cbn [outcome world trace fst snd].
  unfold batch_calls, dispatches, consumed in *; cbn [flat_map app].
  rewrite !flat_map_app; cbn [flat_map batch_call_of dispatch_of consumed_of].
  rewrite !app_nil_r. repeat split; assumption.
Qed.

End BatchRuns.

(** ** The batches the design prescribes *)

Section SpecBatches.

Variable T : Type.
Variable b : nat.
Hypothesis Hb1 : (1 <= b)%nat.

Lemma spec_batches_concat (items : list T) : forall pend,
    (items = [] -> pend = []) ->
    List.concat (spec_batches b pend items) = pend ++ items.
Proof.
  induction items as [| x rest IH]; intros pend Hnil.
  - rewrite (Hnil eq_refl); reflexivity.
  - cbn [spec_batches].
    destruct ((List.length (pend ++ [x]) =? b)%nat
              || match rest with [] => true | _ => false end) eqn:Hc.
    + cbn [List.concat]. rewrite IH by reflexivity.
      rewrite <- app_assoc; reflexivity.
    + rewrite IH, <- app_assoc; [reflexivity |].
      intros ->. rewrite orb_true_r in Hc; discriminate.
Qed.

Lemma spec_batches_sizes (items : list T) : forall pend,
    (List.length pend < b)%nat ->
    (items = [] -> pend = []) ->
    let total := (List.length pend + List.length items)%nat in
    map (@List.length T) (spec_batches b pend items) =
    repeat b (total / b) ++
    (if (total mod b =? 0)%nat then [] else [(total mod b)%nat]).
Proof.
  induction items as [| x rest IH]; intros pend Hlt Hnil total; subst total.
  - rewrite (Hnil eq_refl); simpl.
    rewrite Nat.Div0.div_0_l, Nat.Div0.mod_0_l; reflexivity.
  - cbn [spec_batches]. rewrite length_app; cbn [List.length].
    destruct (Nat.eqb_spec (List.length pend + 1) b) as [Hfull | Hpart].
    + cbn [orb map]. rewrite length_app; cbn [List.length].
      rewrite IH by (simpl; solve [lia | reflexivity]). cbn [List.length].
      replace (List.length pend + S (List.length rest))%nat
        with (1 * b + List.length rest)%nat by lia.
      rewrite Nat.div_add_l by lia.
      replace (1 * b + List.length rest)%nat
        with (List.length rest + 1 * b)%nat by lia.
      rewrite Nat.Div0.mod_add. simpl. rewrite Hfull. reflexivity.
    + destruct rest as [| y rest].
      * cbn [orb map spec_batches List.length].
        rewrite length_app; cbn [List.length].
        replace (List.length pend + 1)%nat with (S (List.length pend)) in * by lia.
        rewrite Nat.div_small, Nat.mod_small by lia. reflexivity.
      * cbn [orb]. rewrite IH.
        -- rewrite length_app; cbn [List.length].
           replace (List.length pend + 1 + S (List.length rest))%nat
             with (List.length pend + S (S (List.length rest)))%nat by lia.
           reflexivity.
        -- rewrite length_app; simpl; lia.
        -- discriminate.
Qed.

End SpecBatches.

Section Covering.

Variables Hits W : Type.
Variable s : Searcher Hits W.
Variable ow : OutputWriter Hits W.
Variable args : Args.

Lemma carries_id_map (batch : list (Py.value * string))
      (rs : list (Py.value * Hits)) :
  map fst rs = map Py.VStr (map (fun t => Py.str (fst t)) batch) ->
  Forall2 carries_id batch rs.
Proof.
  revert rs; induction batch as [| t batch IH]; intros [| p rs] H;
    try discriminate; constructor.
  - injection H as H _; exact H.
  - apply IH. injection H as _ H; exact H.
Qed.

Lemma map_carries_id (src : list (Py.value * string))
      (rs : list (Py.value * Hits)) :
  Forall2 carries_id src rs ->
  map fst rs = map (fun t => Py.VStr (Py.str (fst t))) src.
Proof.
  induction 1 as [| t p src rs Hp _ IH]; simpl; [reflexivity |].
  rewrite Hp, IH; reflexivity.
Qed.

Lemma covered_calls (src : list (Py.value * string)) :
  batch_search_covers s ->
  forall batch w, segment batch src ->
    exists d w1 rs,
      batch_search s (fst (as_call batch)) (snd (as_call batch))
                   (hits args) (rho args) (threads args) w = (inr d, w1) /\
      reproject (snd (as_call batch)) d = inr rs /\
      Forall2 carries_id batch rs.
Proof.
  intros Hs batch w _.
  destruct (Hs (fst (as_call batch)) (snd (as_call batch))
               (hits args) (rho args) (threads args) w)
    as (d & w1 & Hcall & _ & Hincl).
  destruct (@reproject_total Hits _ d Hincl) as (rs & Hr & Hfst & _).
  exists d, w1, rs; repeat split; try assumption.
  apply carries_id_map; exact Hfst.
Qed.

(** A whole run in batch mode, with a covering searcher. *)
Lemma run_batch_covered (src : list (Py.value * string)) w :
  single_mode args = false -> (1 <= batch_size args)%Z ->
  batch_search_covers s -> write_returns ow ->
  let x := run s ow args (Z.of_nat (List.length src)) src w in
  outcome x = inr tt /\
  batch_calls (trace x) =
    map as_call (spec_batches (Z.to_nat (batch_size args)) [] src) /\
  map fst (dispatches (trace x)) =
    map (fun t => Py.VStr (Py.str (fst t))) src /\
  consumed (trace x) = src.
Proof.
  intros Hmode Hbs Hs Hw x; subst x.
  destruct (@run_batch Hits W s ow args (Z.of_nat (List.length src))
              (Z.to_nat (batch_size args)) Hmode) with
      (src := src) (Good := @carries_id Hits) (w := w)
    as (Ho & Hbc & Hg & Hc);
    try solve [reflexivity | lia | assumption].
  { apply covered_calls; exact Hs. }
  repeat split; try assumption.
  apply map_carries_id; exact Hg.
Qed.

End Covering.

Section SingleRuns.

Variables Hits W : Type.
Variable s : Searcher Hits W.
Variable ow : OutputWriter Hits W.
Variable args : Args.
Variable n : Z.

Lemma combine_fst A B (l : list A) : forall (l' : list B),
    List.length l' = List.length l -> map fst (combine l l') = l.
Proof.
  induction l as [| a l IH]; intros [| c l'] H; try discriminate; simpl.
  - reflexivity.
  - f_equal; apply IH; simpl in H; congruence.
Qed.

(** A whole run in single mode, with a searcher whose hits satisfy
    [Good]. *)
Lemma run_single (Good : string -> Hits -> Prop)
      (src : list (Py.value * string)) w :
  single_mode args = true ->
  (forall text w, exists h w',
      search s text (hits args) (rho args) w = (inr h, w') /\ Good text h) ->
  write_returns ow ->
  exists hs,
    Forall2 Good (map snd src) hs /\
    outcome (run s ow args n src w) = inr tt /\
    dispatches (trace (run s ow args n src w)) = combine (map fst src) hs /\
    consumed (trace (run s ow args n src w)) = src.
Proof.
  intros Hmode Hs Hw.
  destruct (@for_loop_single Hits W s ow args n Good Hmode Hs Hw src 0%nat
                             empty w) as (hs & w' & Hg & Hloop).
  assert (Hlen : List.length hs = List.length src).
  { apply Forall2_length in Hg. rewrite length_map in Hg. congruence. }
  exists hs; split; [exact Hg |].
  rewrite run_unfold, Hloop; cbn [outcome world trace fst snd].
  unfold dispatches, consumed; cbn [flat_map app].
  rewrite !flat_map_app; cbn [flat_map dispatch_of consumed_of].
  rewrite !app_nil_r.
  fold (dispatches (single_trace (hits args) (rho args) 0 src hs)).
  fold (consumed (single_trace (hits args) (rho args) 0 src hs)).
  rewrite dispatches_single_trace, consumed_single_trace by exact Hlen.
  repeat split.
Qed.

End SingleRuns.



(** ** A deterministic backend *)

Section Deterministic.

Variables Hits W : Type.
Variable s : Searcher Hits W.
Variable ow : OutputWriter Hits W.
Variable rank : string -> Z -> Z -> Hits.
Variables k r : Z.

Lemma ranked_eq (src : list (Py.value * string)) rs :
  Forall2 (ranked rank k r) src rs ->
  rs = map (fun t => (Py.VStr (Py.str (fst t)), rank (snd t) k r)) src.
Proof.
  induction 1 as [| t p src rs Hp _ IH]; simpl; [reflexivity |].
  rewrite Hp, IH; reflexivity.
Qed.

Lemma ranked_batch (batch : list (Py.value * string)) d :
  Forall2 (fun id_ text => Py.lookup id_ d = Some (rank text k r))
          (snd (as_call batch)) (fst (as_call batch)) ->
  exists rs, reproject (snd (as_call batch)) d = inr rs /\
             Forall2 (ranked rank k r) batch rs.
Proof.
  unfold as_call; cbn [fst snd].
  induction batch as [| [topic_id text] batch IH]; intros H; simpl in *.
  - exists []; split; [reflexivity | constructor].
  - inversion H as [| ? ? ? ? Hl Hrest]; subst.
    destruct (IH Hrest) as (rs & Hr & Hg).
    exists ((Py.VStr (Py.str topic_id), rank text k r) :: rs).
    unfold Py.getitem; rewrite Hl, Hr. split; [reflexivity |].
    constructor; [reflexivity | exact Hg].
Qed.

Lemma segment_nodup A B (f : A -> B) (batch src : list A) :
  segment batch src -> NoDup (map f src) -> NoDup (map f batch).
Proof.
  intros (l1 & l2 & ->) H. rewrite !map_app in H.
  apply NoDup_app_remove_l in H. apply NoDup_app_remove_r in H. exact H.
Qed.

Lemma ranked_calls (src : list (Py.value * string)) t :
  deterministic rank s ->
  NoDup (map (fun t => Py.str (fst t)) src) ->
  forall batch w, segment batch src ->
    exists d w1 rs,
      batch_search s (fst (as_call batch)) (snd (as_call batch)) k r t w
      = (inr d, w1) /\
      reproject (snd (as_call batch)) d = inr rs /\
      Forall2 (ranked rank k r) batch rs.
Proof.
  intros [_ Hdet] Hnd batch w Hseg.
  destruct (Hdet (fst (as_call batch)) (snd (as_call batch)) k r t w)
    as (d & w1 & Hcall & Hall).
  { unfold as_call; simpl; rewrite !length_map; reflexivity. }
  { unfold as_call; cbn [snd]. eapply segment_nodup; eassumption. }
  destruct (@ranked_batch batch d Hall) as (rs & Hr & Hg).
  exists d, w1, rs; repeat split; assumption.
Qed.

Lemma ranked_single (src : list (Py.value * string)) hs :
  Forall2 (fun text h => h = rank text k r) (map snd src) hs ->
  combine (map fst src) hs = map (fun t => (fst t, rank (snd t) k r)) src.
Proof.
  revert hs; induction src as [| t src IH]; intros hs H;
    inversion H; subst; simpl; [reflexivity |].
  f_equal; apply IH; assumption.
Qed.

End Deterministic.

(** C4, amended: for the same topic source (ids pairwise distinct as
    strings) and the same deterministic backend, a run in single mode and a
    run in batch mode write the same hits for the same topics in the same
    order. Single mode writes each topic id as it was read, batch mode
    writes [str(topic_id)]: the written pairs agree once the ids are
    stringified, and are identical when the topic ids are strings. *)
Theorem batching_preserves_content :
  forall Hits W (s : Searcher Hits W) (ow : OutputWriter Hits W)
         (rank : string -> Z -> Z -> Hits) (a1 a2 : Args) (n1 : Z)
         (src : list (Py.value * string)) (w1 w2 : W),
    deterministic rank s -> write_returns ow ->
    single_mode a1 = true -> single_mode a2 = false ->
    (1 <= batch_size a2)%Z ->
    hits a1 = hits a2 -> rho a1 = rho a2 ->
    NoDup (map (fun t => Py.str (fst t)) src) ->
    let d1 := dispatches (trace (run s ow a1 n1 src w1)) in
    let d2 := dispatches
                (trace (run s ow a2 (Z.of_nat (List.length src)) src w2)) in
    d1 = map (fun t => (fst t, rank (snd t) (hits a1) (rho a1))) src /\
    d2 = map (fun t => (Py.VStr (Py.str (fst t)),
                        rank (snd t) (hits a1) (rho a1))) src /\
    map (fun p => (Py.str (fst p), snd p)) d1 =
    map (fun p => (Py.str (fst p), snd p)) d2 /\
    (Forall (fun t => exists id_, fst t = Py.VStr id_) src -> d1 = d2).
Proof.
  intros Hits W s ow rank a1 a2 n1 src w1 w2 Hdet Hw Hm1 Hm2 Hbs Hh Hr Hnd d1 d2.
  assert (H1 : d1 = map (fun t => (fst t, rank (snd t) (hits a1) (rho a1))) src).
  { subst d1.
    destruct (@run_single Hits W s ow a1 n1
                (fun text h => h = rank text (hits a1) (rho a1)) src w1 Hm1)
      as (hs & Hg & _ & Hd & _); [| exact Hw |].
    { intros text w. destruct Hdet as [Hs _].
      destruct (Hs text (hits a1) (rho a1) w) as [w' Hs'].
      exists (rank text (hits a1) (rho a1)), w'; split; [exact Hs' | reflexivity]. }
    rewrite Hd. apply ranked_single; exact Hg. }
  assert (H2 : d2 = map (fun t => (Py.VStr (Py.str (fst t)),
                                   rank (snd t) (hits a1) (rho a1))) src).
  { subst d2.
    destruct (@run_batch Hits W s ow a2 (Z.of_nat (List.length src))
                (Z.to_nat (batch_size a2)) Hm2) with
        (src := src) (Good := ranked rank (hits a1) (rho a1)) (w := w2)
      as (_ & _ & Hg & _); try solve [reflexivity | lia | assumption].
    { rewrite Hh, Hr. apply ranked_calls; assumption. }
    apply ranked_eq; exact Hg. }
  split; [exact H1 | split; [exact H2 |]].
  rewrite H1, H2, !map_map; cbn [fst snd]. split; [reflexivity |].
  intros Hstr. apply map_ext_in. intros [topic_id text] Hin.
  rewrite Forall_forall in Hstr. destruct (Hstr _ Hin) as [id_ Hid].
  cbn [fst snd] in *. rewrite Hid; reflexivity.
Qed.

(** ** The default output path *)

(** C8: when no [--output] is given, the output path is
    ['run.<topics>.rho_<rho>.txt']: it depends on the topic-set name and on
    [rho] only, so two configurations with the same topics and [rho] derive
    the same path. *)
Theorem default_output_path :
  forall a1 a2 : Args,
    output a1 = None -> output a2 = None ->
    topics a1 = topics a2 -> rho a1 = rho a2 ->
    output_path a1 =
      append "run." (append (topics a1)
        (append ".rho_" (append (Py.str_int (rho a1)) ".txt"))) /\
    output_path a1 = output_path a2.
Proof.
  intros a1 a2 H1 H2 Ht Hr. unfold output_path. rewrite H1, H2, <- Ht, <- Hr.
  split; reflexivity.
Qed.

(** ** Two runs whose mappings differ in entry order only *)

Section TwoRuns.

Variables Hits W : Type.

Variable R : W -> W -> Prop.

Lemma agree_bind A B (m1 m2 : M Hits W A) (f1 f2 : A -> M Hits W B) w1 w2 :
  agree R (m1 w1) (m2 w2) ->
  (forall a v1 v2, R v1 v2 -> agree R (f1 a v1) (f2 a v2)) ->
  agree R (bind m1 f1 w1) (bind m2 f2 w2).
Proof.
  unfold agree, bind. intros (Ho & Hd & Hr) Hf.
  destruct (m1 w1) as [[[e1 | a1] v1] t1], (m2 w2) as [[[e2 | a2] v2] t2];
    cbn [outcome world trace fst snd] in *; try discriminate.
  - injection Ho as ->. repeat split; assumption.
  - injection Ho as ->. specialize (Hf a2 v1 v2 Hr).
    destruct (f1 a2 v1) as [[r1 u1] t1'], (f2 a2 v2) as [[r2 u2] t2'];
      cbn [outcome world trace fst snd] in *.
    destruct Hf as (Ho' & Hd' & Hr'). rewrite !dispatches_app, Hd, Hd'.
    repeat split; assumption.
Qed.

Lemma agree_pure A (x : Py.result A) w1 w2 :
  R w1 w2 -> agree R (lift (Hits:=Hits) x w1) (lift x w2).
Proof. intros H; repeat split; exact H. Qed.

Variables s1 s2 : Searcher Hits W.
Variable ow : OutputWriter Hits W.
Variable args : Args.
Variable n : Z.

Hypothesis Hmode : single_mode args = false.
Hypothesis Hs : same_associations R s1 s2.
Hypothesis Hw : writer_respects R ow.

Lemma agree_write_results rs : forall w1 w2,
    R w1 w2 -> agree R (write_results ow rs w1) (write_results ow rs w2).
Proof.
  induction rs as [| [topic h] rs IH]; intros w1 w2 Hr; simpl.
  - repeat split; exact Hr.
  - apply agree_bind; [| intros _ v1 v2 Hv; apply IH; exact Hv].
    destruct (Hw topic h Hr) as [Hres Hr']. unfold agree, call.
    destruct (write ow topic h w1) as [r1 v1], (write ow topic h w2) as [r2 v2];
      cbn [outcome world trace fst snd] in *.
    repeat split; assumption.
Qed.

(** Searching a batch and re-projecting the mapping. *)
Lemma agree_search_reproject texts ids k r t w1 w2 :
  R w1 w2 ->
  agree R (bind (call (batch_search s1 texts ids k r t)
                    (EvBatchSearch texts ids k r t))
              (fun d => lift (reproject ids d)) w1)
        (bind (call (batch_search s2 texts ids k r t)
                    (EvBatchSearch texts ids k r t))
              (fun d => lift (reproject ids d)) w2).
Proof.
  intros Hr. specialize (Hs texts ids k r t Hr). unfold agree, bind, call, lift.
  destruct (batch_search s1 texts ids k r t w1) as [[e1 | d1] v1],
           (batch_search s2 texts ids k r t w2) as [[e2 | d2] v2];
    try contradiction; cbn [outcome world trace fst snd].
  - destruct Hs as [-> Hr']. repeat split; assumption.
  - destruct Hs as (Hwf & Hp & Hr').
    rewrite (@reproject_perm Hits ids d1 d2 Hwf Hp). repeat split; assumption.
Qed.

Lemma agree_search_then A texts ids k r t
      (f1 f2 : list (Py.value * Hits) -> M Hits W A) w1 w2 :
  R w1 w2 ->
  (forall rs v1 v2, R v1 v2 -> agree R (f1 rs v1) (f2 rs v2)) ->
  agree R (bind (call (batch_search s1 texts ids k r t)
                    (EvBatchSearch texts ids k r t))
              (fun d => bind (lift (reproject ids d)) f1) w1)
        (bind (call (batch_search s2 texts ids k r t)
                    (EvBatchSearch texts ids k r t))
              (fun d => bind (lift (reproject ids d)) f2) w2).
Proof.
  intros Hr Hf.
  rewrite <- (bind_assoc _ (fun d => lift (reproject ids d)) f1).
  rewrite <- (bind_assoc _ (fun d => lift (reproject ids d)) f2).
  apply agree_bind; [apply agree_search_reproject; exact Hr | exact Hf].
Qed.

Lemma agree_loop_body acc i item w1 w2 :
  R w1 w2 ->
  agree R (loop_body s1 ow args n acc i item w1)
        (loop_body s2 ow args n acc i item w2).
Proof.
  intros Hr. destruct item as [topic_id text]. unfold loop_body.
  rewrite Hmode.
  apply agree_bind; [repeat split; exact Hr | intros _ v1 v2 Hv].
  apply agree_bind; [apply agree_pure; exact Hv | intros m u1 u2 Hu].
  destruct (_ || _); [| repeat split; exact Hu].
  apply agree_search_then; [exact Hu |].
  intros rs x1 x2 Hx.
  apply agree_bind; [apply agree_write_results; exact Hx |].
  intros _ y1 y2 Hy. repeat split; exact Hy.
Qed.

Lemma agree_for_loop items : forall i acc w1 w2,
    R w1 w2 ->
    agree R (for_loop s1 ow args n i items acc w1)
          (for_loop s2 ow args n i items acc w2).
Proof.
  induction items as [| item rest IH]; intros i acc w1 w2 Hr; simpl.
  - repeat split; exact Hr.
  - apply agree_bind; [apply agree_loop_body; exact Hr |].
    intros acc' v1 v2 Hv; apply IH; exact Hv.
Qed.

Lemma agree_run src w1 w2 :
  R w1 w2 -> agree R (run s1 ow args n src w1) (run s2 ow args n src w2).
Proof.
  intros Hr. destruct (agree_for_loop src 0 empty Hr) as (Ho & Hd & Hr').
  rewrite !run_unfold. unfold agree; cbn [outcome world trace fst snd].
  rewrite Ho. split; [reflexivity | split; [| exact Hr']].
  unfold dispatches in *; cbn [flat_map dispatch_of app].
  rewrite !flat_map_app, Hd; reflexivity.
Qed.

End TwoRuns.


(** ** The accumulators between iterations *)

Section Invariant.

Variables Hits W : Type.
Variable s : Searcher Hits W.
Variable ow : OutputWriter Hits W.
Variable args : Args.
Variable n : Z.

Lemma for_loop_app l1 : forall l2 i acc w,
    for_loop s ow args n i (l1 ++ l2) acc w =
    bind (for_loop s ow args n i l1 acc)
         (fun acc' => for_loop s ow args n (i + List.length l1) l2 acc') w.
Proof.
  induction l1 as [| item l1 IH]; intros l2 i acc w; simpl.
  - rewrite bind_ret_l, Nat.add_0_r; reflexivity.
  - rewrite bind_assoc. apply bind_ext; intros acc' w'.
    rewrite IH. apply bind_ext; intros acc'' w''.
    f_equal; lia.
Qed.

Lemma for_loop_one i item acc w :
  for_loop s ow args n i [item] acc w = loop_body s ow args n acc i item w.
Proof.
  simpl. unfold bind, ret.
  destruct (loop_body s ow args n acc i item w) as [[[e | acc'] w'] t];
    [reflexivity | rewrite app_nil_r; reflexivity].
Qed.

Variable b : nat.
Hypothesis Hmode : single_mode args = false.
Hypothesis Hb : batch_size args = Z.of_nat b.
Hypothesis Hb1 : (1 <= b)%nat.

(** An iteration that returns leaves the accumulators emptied if it
    closed the batch, and extended by its topic otherwise. *)
Lemma loop_body_holds acc pend i topic_id text w acc' w' tr :
  holds acc pend ->
  Z.of_nat i <> (n - 1)%Z ->
  loop_body s ow args n acc i (topic_id, text) w = (inr acc', w', tr) ->
  holds acc' (if (i mod b + 1 =? b)%nat then []
              else pend ++ [(topic_id, text)]).
Proof.
  intros Hacc Hlast Hbody.
  destruct (Nat.eqb_spec (i mod b + 1) b) as [Hfull | Hpart].
  - assert (acc' = empty); [| subst acc'; reflexivity].
    revert Hbody. batch_branch Hmode Hb.
    unfold bind at 1 2, emit, lift; cbn [fst snd].
    rewrite flush_test by exact Hb1.
    apply Nat.eqb_eq in Hfull; rewrite Hfull; cbn [orb].
    unfold bind, call, lift, ret.
    destruct (batch_search s _ _ _ _ _ w) as [[e | d] w1]; [discriminate |].
    destruct (reproject _ d) as [e | rs]; [discriminate |].
    destruct (write_results ow rs w1) as [[[e | []] w2] t2]; [discriminate |].
    intros H; injection H as <- _ _; reflexivity.
  - rewrite (@loop_body_keep Hits W s ow args n b Hmode Hb Hb1) in Hbody
      by assumption.
    injection Hbody as <- _ _.
    unfold holds; cbn [batch_topics batch_topic_ids].
    apply holds_snoc; exact Hacc.
Qed.

End Invariant.

Section Pending.

Variable T : Type.

Lemma firstn_snoc (src : list T) : forall i,
    (i < List.length src)%nat ->
    exists x, nth_error src i = Some x /\
              firstn (S i) src = firstn i src ++ [x].
Proof.
  induction src as [| y src IH]; intros i Hi; simpl in Hi; [lia |].
  destruct i as [| i].
  - exists y; split; reflexivity.
  - destruct (IH i ltac:(lia)) as (x & Hx & Hf).
    exists x; split; [exact Hx |].
    change (firstn (S (S i)) (y :: src)) with (y :: firstn (S i) src).
    rewrite Hf; reflexivity.
Qed.

Variable b : nat.
Hypothesis Hb1 : (1 <= b)%nat.

Lemma pending_length (src : list T) i :
  (i <= List.length src)%nat -> List.length (pending b i src) = (i mod b)%nat.
Proof.
  intros Hi. unfold pending. rewrite length_skipn, length_firstn.
  pose proof (Nat.Div0.mod_le i b). lia.
Qed.

Lemma pending_succ (src : list T) i x :
  (i < List.length src)%nat ->
  firstn (S i) src = firstn i src ++ [x] ->
  pending b (S i) src =
  if (i mod b + 1 =? b)%nat then [] else pending b i src ++ [x].
Proof.
  intros Hi Hf. unfold pending. rewrite succ_mod by lia.
  pose proof (Nat.Div0.mod_le i b) as Hle.
  destruct (Nat.eqb_spec (i mod b + 1) b) as [Hfull | Hpart].
  - rewrite Nat.sub_0_r. apply skipn_all2. rewrite length_firstn; lia.
  - replace (S i - (i mod b + 1))%nat with (i - i mod b)%nat by lia.
    rewrite Hf, skipn_app, length_firstn.
    replace (i - i mod b - Nat.min i (List.length src))%nat with 0%nat by lia.
    reflexivity.
Qed.

End Pending.


Section PrefixInvariant.

Variables Hits W : Type.
Variable s : Searcher Hits W.
Variable ow : OutputWriter Hits W.
Variable args : Args.
Variable b : nat.
Variable src : list (Py.value * string).

Hypothesis Hmode : single_mode args = false.
Hypothesis Hb : batch_size args = Z.of_nat b.
Hypothesis Hb1 : (1 <= b)%nat.

Let n := Z.of_nat (List.length src).

(** The accumulators at the start of iteration [i], when it is reached. *)
Lemma prefix_holds w : forall i acc w' tr,
    (i < List.length src)%nat ->
    for_loop s ow args n 0 (firstn i src) empty w = (inr acc, w', tr) ->
    holds acc (pending b i src).
Proof.
  induction i as [| i IH]; intros acc w' tr Hi Hrun.
  - simpl in Hrun. injection Hrun as <- _ _. reflexivity.
  - destruct (@firstn_snoc _ src i ltac:(lia)) as ([topic_id text] & _ & Hf).
    rewrite Hf, for_loop_app in Hrun. unfold bind in Hrun.
    destruct (for_loop s ow args n 0 (firstn i src) empty w)
      as [[[e | acc1] w1] t1] eqn:Hpre; [discriminate |].
    rewrite for_loop_one, length_firstn in Hrun.
    replace (0 + Nat.min i (List.length src))%nat with i in Hrun by lia.
    destruct (loop_body s ow args n acc1 i (topic_id, text) w1)
      as [[r w2] t2] eqn:Hbody.
    injection Hrun as -> _ _.
    rewrite (@pending_succ _ b Hb1 src i (topic_id, text)) by (lia || exact Hf).
    eapply (@loop_body_holds Hits W s ow args n b Hmode Hb Hb1);
      [eapply IH; [lia | reflexivity] | subst n; lia | exact Hbody].
Qed.

End PrefixInvariant.

(** C9: in batch mode, whenever the loop reaches iteration [i] (the first
    [i] iterations returned and the rest of the loop runs from their
    accumulators), [batch_topics] and [batch_topic_ids] have the same
    length, they hold the texts and the stringified ids of the same topics
    in arrival order (the last [i mod batch_size] topics read), and that
    length is [i mod batch_size]. So the test [(index + 1) % batch_size == 0]
    of the code holds exactly when the accumulator, after appending, has
    size [batch_size]. *)
Theorem accumulator_invariant :
  forall Hits W (s : Searcher Hits W) (ow : OutputWriter Hits W)
         (args : Args) (src : list (Py.value * string)) (w : W)
         (i : nat) (acc : accum) (w' : W) (tr : list (event Hits)),
    single_mode args = false -> (1 <= batch_size args)%Z ->
    (i < List.length src)%nat ->
    let n := Z.of_nat (List.length src) in
    let b := Z.to_nat (batch_size args) in
    for_loop s ow args n 0 (firstn i src) empty w = (inr acc, w', tr) ->
    for_loop s ow args n 0 src empty w =
      bind (for_loop s ow args n 0 (firstn i src) empty)
           (fun acc => for_loop s ow args n i (skipn i src) acc) w /\
    List.length (batch_topics acc) = List.length (batch_topic_ids acc) /\
    holds acc (pending b i src) /\
    List.length (batch_topic_ids acc) = (i mod b)%nat /\
    forall topic_id,
      ((Z.of_nat i + 1) mod batch_size args =? 0)%Z =
      (Z.of_nat (List.length (batch_topic_ids acc ++ [Py.str topic_id]))
       =? batch_size args)%Z.
Proof.
  intros Hits W s ow args src w i acc w' tr Hmode Hbs Hi n b Hrun.
  assert (Hb : batch_size args = Z.of_nat b) by (subst b; lia).
  assert (Hb1 : (1 <= b)%nat) by (subst b; lia).
  pose proof (@prefix_holds Hits W s ow args b src Hmode Hb Hb1 w i acc w' tr
                            Hi Hrun) as Hacc.
  pose proof (@pending_length _ b Hb1 src i ltac:(lia)) as Hlen.
  unfold holds, as_call in Hacc. injection Hacc as Htexts Hids.
  assert (Hl : List.length (batch_topic_ids acc) = (i mod b)%nat)
    by (rewrite Hids, length_map; exact Hlen).
  split; [| split; [| split; [| split]]].
  - rewrite <- (firstn_skipn i src) at 1. rewrite for_loop_app.
    apply bind_ext; intros acc0 w0. rewrite length_firstn.
    replace (0 + Nat.min i (List.length src))%nat with i by lia. reflexivity.
  - rewrite Htexts, Hids, !length_map; reflexivity.
  - unfold holds, as_call; rewrite Htexts, Hids; reflexivity.
  - exact Hl.
  - intros topic_id. rewrite Hb, flush_test by exact Hb1.
    rewrite length_app, Hl; cbn [List.length].
    destruct (Nat.eqb_spec (i mod b + 1) b) as [Heq | Hne]; symmetry.
    + apply Z.eqb_eq; lia.
    + apply Z.eqb_neq; lia.
Qed.

(** ** The test double meets the contracts *)

Section MockFacts.

Lemma mock_in_keys_setitem V (k x : string) (v : V) (d : Py.dict V) :
  In x (Py.keys (Mock.setitem k v d)) <-> x = k \/ In x (Py.keys d).
Proof.
  induction d as [| [k' v'] d IH]; simpl.
  - intuition.
  - destruct (String.eqb_spec k k') as [-> | Hne]; simpl.
    + intuition.
    + rewrite IH. intuition.
Qed.

Lemma mock_wf_setitem V (k : string) (v : V) (d : Py.dict V) :
  Py.wf d -> Py.wf (Mock.setitem k v d).
Proof.
  unfold Py.wf. induction d as [| [k' v'] d IH]; simpl; intros Hwf.
  - repeat constructor. intros [].
  - inversion Hwf as [| ? ? Hnin Hwf']; subst.
    destruct (String.eqb_spec k k') as [-> | Hne]; simpl.
    + constructor; assumption.
    + constructor; [| apply IH; exact Hwf'].
      fold (Py.keys (Mock.setitem k v d)). rewrite mock_in_keys_setitem.
      intros [-> | Hin]; [apply Hne; reflexivity | apply Hnin; exact Hin].
Qed.

Lemma mock_lookup_setitem V (k x : string) (v : V) (d : Py.dict V) :
  Py.lookup x (Mock.setitem k v d) =
  if String.eqb x k then Some v else Py.lookup x d.
Proof.
  induction d as [| [k' v'] d IH]; simpl.
  - reflexivity.
  - destruct (String.eqb_spec k k') as [-> | Hne]; simpl.
    + destruct (String.eqb x k'); reflexivity.
    + rewrite IH. destruct (String.eqb_spec x k') as [-> | Hx].
      * destruct (String.eqb_spec k' k) as [-> | _]; [contradiction | reflexivity].
      * reflexivity.
Qed.

Lemma mock_wf_fill ids : forall texts k r d,
    Py.wf d -> Py.wf (Mock.fill texts ids k r d).
Proof.
  induction ids as [| id_ ids IH]; intros texts k r d Hwf; simpl.
  - exact Hwf.
  - apply IH, mock_wf_setitem, Hwf.
Qed.

Lemma mock_in_keys_fill ids : forall texts k r d x,
    In x ids \/ In x (Py.keys d) -> In x (Py.keys (Mock.fill texts ids k r d)).
Proof.
  induction ids as [| id_ ids IH]; intros texts k r d x H; simpl.
  - destruct H as [[] | H]; exact H.
  - apply IH. rewrite mock_in_keys_setitem. simpl in H. intuition.
Qed.

Lemma mock_lookup_fill ids : forall texts k r d x,
    ~ In x ids -> Py.lookup x (Mock.fill texts ids k r d) = Py.lookup x d.
Proof.
  induction ids as [| id_ ids IH]; intros texts k r d x Hx; simpl.
  - reflexivity.
  - rewrite IH by (intros H; apply Hx; right; exact H).
    rewrite mock_lookup_setitem.
    destruct (String.eqb_spec x id_) as [-> | _]; [| reflexivity].
    exfalso; apply Hx; left; reflexivity.
Qed.

Lemma mock_fill_ranked ids : forall texts k r d,
    List.length texts = List.length ids -> NoDup ids ->
    Forall2 (fun id_ text =>
               Py.lookup id_ (Mock.fill texts ids k r d)
               = Some (Mock.rank text k r)) ids texts.
Proof.
  induction ids as [| id_ ids IH]; intros [| text texts] k r d Hlen Hnd;
    try discriminate; [constructor |].
  inversion Hnd as [| ? ? Hnin Hnd']; subst. simpl.
  constructor.
  - rewrite mock_lookup_fill by exact Hnin.
    rewrite mock_lookup_setitem, String.eqb_refl. reflexivity.
  - apply IH; [simpl in Hlen; congruence | exact Hnd'].
Qed.

Lemma mock_search_returns shuffle : search_returns (Mock.searcher shuffle).
Proof. intros text k r w; simpl; eauto. Qed.

Lemma mock_write_returns : write_returns Mock.writer.
Proof. intros topic h w; simpl; eauto. Qed.

Lemma mock_batch_search_covers shuffle :
  batch_search_covers (Mock.searcher shuffle).
Proof.
  intros texts ids k r t w; simpl.
  assert (Hwf : Py.wf (Mock.fill texts ids k r [])) by (apply mock_wf_fill; constructor).
  assert (Hin : incl ids (Py.keys (Mock.fill texts ids k r [])))
    by (intros x Hx; apply mock_in_keys_fill; left; exact Hx).
  eexists _, _; split; [reflexivity |].
  destruct shuffle; [| split; assumption]. split.
  - unfold Py.wf, Py.keys in *. rewrite map_rev.
    apply NoDup_rev; exact Hwf.
  - intros x Hx. unfold Py.keys. rewrite map_rev, <- in_rev.
    apply Hin; exact Hx.
Qed.

Lemma mock_deterministic : deterministic Mock.rank (Mock.searcher false).
Proof.
  split.
  - intros text k r w; simpl; eauto.
  - intros texts ids k r t w Hlen Hnd; simpl.
    eexists _, _; split; [reflexivity |].
    apply mock_fill_ranked; assumption.
Qed.

Lemma mock_same_associations :
  same_associations (fun _ _ => True) (Mock.searcher false) (Mock.searcher true).
Proof.
  intros texts ids k r t w1 w2 _; simpl.
  split; [apply mock_wf_fill; constructor | split; [apply Permutation_rev | exact I]].
Qed.

Lemma mock_writer_respects : writer_respects (fun _ _ => True) Mock.writer.
Proof. intros topic h w1 w2 _; simpl; split; [reflexivity | exact I]. Qed.

End MockFacts.

(** ** The driver on concrete runs *)

(** Five topics in batches of three: two [batch_search] calls, the pairs
    written in topic order with stringified ids. *)
Example run_five_by_three :
  let x := run (Mock.searcher true) Mock.writer (Mock.config 3 1) 5
               Mock.five Mock.start in
  outcome x = inr tt /\
  map snd (batch_calls (trace x)) =
    [["301"; "302"; "303"]; ["304"; "305"]]%string /\
  map fst (dispatches (trace x)) =
    map Py.VStr ["301"; "302"; "303"; "304"; "305"]%string.
Proof. repeat split. Qed.

(** [batch_size = 0] with [threads > 1] is batch mode: the modulo of line 97
    raises on the first topic, after the writer was entered. *)
Example zero_batch_size_raises :
  run (Mock.searcher false) Mock.writer (Mock.config 0 2) 5 Mock.five Mock.start
  = (inl Py.ZeroDivisionError, Mock.start,
     [EvEnter; EvNext 0 (Py.VInt 301) "q1"; EvExit]).
Proof. reflexivity. Qed.

(** A mapping that lacks an id makes line 101 raise [KeyError]. *)
Example missing_key_raises :
  reproject ["a"; "b"]%string [("a", ["d1"])]%string
  = inl (Py.KeyError "b").
Proof. reflexivity. Qed.

(** ** The theorems at work on the test double *)




(** C4 as stated fails: with integer topic ids, single mode writes the id
    [301] and batch mode writes the string ["301"]. *)
Lemma batching_changes_written_ids :
  deterministic Mock.rank (Mock.searcher false) /\
  write_returns Mock.writer /\
  dispatches (trace (run (Mock.searcher false) Mock.writer (Mock.config 1 1) 5
                         Mock.five Mock.start)) <>
  dispatches (trace (run (Mock.searcher false) Mock.writer (Mock.config 5 4) 5
                         Mock.five Mock.start)).
Proof.
  split; [apply mock_deterministic | split; [apply mock_write_returns |]].
  intros H; vm_compute in H; discriminate.
Qed.

(** C4, amended, on three topics with string ids: the pairs are identical. *)
Lemma batching_preserves_content_witness :
  let d1 := dispatches (trace (run (Mock.searcher false) Mock.writer
                                   (Mock.config 1 1) 3 Mock.named Mock.start)) in
  let d2 := dispatches (trace (run (Mock.searcher false) Mock.writer
                                   (Mock.config 5 4) 3 Mock.named Mock.start)) in
  map (fun p => (Py.str (fst p), snd p)) d1 =
  map (fun p => (Py.str (fst p), snd p)) d2 /\
  d1 = d2.
Proof.
  destruct (@batching_preserves_content
              Mock.Hits Mock.World (Mock.searcher false) Mock.writer Mock.rank
              (Mock.config 1 1) (Mock.config 5 4) 3 Mock.named
              Mock.start Mock.start)
    as (_ & _ & Hstr & Hsame);
    [apply mock_deterministic | apply mock_write_returns | reflexivity
     | reflexivity | simpl; lia | reflexivity | reflexivity | |].
  - simpl. repeat constructor; simpl; intuition discriminate.
  - split; [exact Hstr | apply Hsame].
    repeat constructor; simpl; eauto.
Defined.


(** C6 on five topics in single mode, with a searcher that raises on its
    second call: the run raises after one write, having taken two topics. *)
Lemma backend_errors_abort_the_run_witness :
  let x := run (Mock.failing 1) Mock.writer (Mock.config 1 1) 5
               Mock.five Mock.start in
  outcome x = inl (Py.Raised "search failed") /\
  List.length (dispatches (trace x)) = 1%nat /\
  List.length (consumed (trace x)) = 2%nat.
Proof.
  split; [| split; reflexivity].
  apply (@backend_errors_abort_the_run
           Mock.Hits Mock.World (Mock.failing 1) Mock.writer (Mock.config 1 1)
           5 Mock.five Mock.start
           (firstn 5 (trace (run (Mock.failing 1) Mock.writer (Mock.config 1 1)
                                 5 Mock.five Mock.start)))
           [EvExit]
           (EvSearch "q2" 2 1000000000 (inl (Py.Raised "search failed")))
           (Py.Raised "search failed"));
    reflexivity.
Defined.

(** C8 on the test configuration. *)
Lemma default_output_path_witness :
  output_path (Mock.config 1 1) = "run.robust04.rho_1000000000.txt"%string /\
  output_path (Mock.config 1 1) = output_path (Mock.config 5 4).
Proof.
  apply (@default_output_path (Mock.config 1 1) (Mock.config 5 4));
    reflexivity.
Defined.

(** C9 at the start of iteration 2 of five topics, with
    [batch_size = 3]: two topics are pending. *)
Lemma accumulator_invariant_witness :
  let acc := {| batch_topics := ["q1"; "q2"];
                batch_topic_ids := ["301"; "302"] |}%string in
  List.length (batch_topics acc) = List.length (batch_topic_ids acc) /\
  holds acc (pending 3 2 Mock.five) /\
  List.length (batch_topic_ids acc) = (2 mod 3)%nat.
Proof.
  destruct (@accumulator_invariant
              Mock.Hits Mock.World (Mock.searcher false) Mock.writer
              (Mock.config 3 1) Mock.five Mock.start 2
              {| batch_topics := ["q1"; "q2"];
                 batch_topic_ids := ["301"; "302"] |}%string
              Mock.start
              [EvNext 0 (Py.VInt 301) "q1"; EvNext 1 (Py.VInt 302) "q2"])
    as (_ & Hlen & Hholds & Hsize & _);
    [reflexivity | simpl; lia | simpl; lia | reflexivity |].
  repeat split; assumption.
Defined.

(** C10 on a mapping returned in an order other than that of the ids. *)
Lemma reprojection_total_witness :
  exists pairs,
    reproject ["a"; "b"]%string
              [("b", ["d2"]); ("a", ["d1"])]%string = inr pairs /\
    map fst pairs = map Py.VStr ["a"; "b"]%string /\
    Forall2 (fun id_ p =>
               Py.getitem [("b", ["d2"]); ("a", ["d1"])]%string id_
               = inr (snd p)) ["a"; "b"]%string pairs.
Proof.
  apply (@reprojection_total (list string) ["a"; "b"]%string
           [("b", ["d2"]); ("a", ["d1"])]%string).
  intros x [<- | [<- | []]]; simpl; auto.
Defined.

(** ** The output path and the run tag *)

Section Strings.

Lemma string_length_app (s u : string) :
  String.length (append s u) = (String.length s + String.length u)%nat.
Proof. induction s as [| c s IH]; simpl; [reflexivity | rewrite IH; reflexivity]. Qed.

Lemma substring_app (s u : string) :
  substring 0 (String.length s) (append s u) = s.
Proof.
  induction s as [| c s IH]; simpl.
  - destruct u; reflexivity.
  - rewrite IH; reflexivity.
Qed.

Lemma drop_last_app (s u : string) :
  Py.drop_last (String.length u) (append s u) = s.
Proof.
  unfold Py.drop_last. rewrite string_length_app.
  replace (String.length s + String.length u - String.length u)%nat
    with (String.length s) by lia.
  apply substring_app.
Qed.

Lemma append_assoc (s u v : string) :
  append (append s u) v = append s (append u v).
Proof. induction s as [| c s IH]; simpl; [reflexivity | rewrite IH; reflexivity]. Qed.

Lemma chars_app (s u : string) :
  list_ascii_of_string (append s u)
  = list_ascii_of_string s ++ list_ascii_of_string u.
Proof. induction s as [| c s IH]; simpl; [reflexivity | rewrite IH; reflexivity]. Qed.

Lemma chars_inj (s u : string) :
  list_ascii_of_string s = list_ascii_of_string u -> s = u.
Proof.
  intros H. rewrite <- (string_of_list_ascii_of_string s),
              <- (string_of_list_ascii_of_string u), H. reflexivity.
Qed.

(** Two lists cut at the last occurrence of [a] have the same parts. *)
Lemma cut_at_last A (a : A) (l1 : list A) : forall l2 m1 m2,
    l1 ++ a :: m1 = l2 ++ a :: m2 ->
    ~ In a m1 -> ~ In a m2 -> l1 = l2 /\ m1 = m2.
Proof.
  intros l2 m1 m2 H H1 H2.
  apply (f_equal (@rev A)) in H. rewrite !rev_app_distr in H. simpl in H.
  rewrite <- !app_assoc in H. simpl in H.
  assert (Hcut : forall (p1 p2 q1 q2 : list A),
             p1 ++ a :: q1 = p2 ++ a :: q2 ->
             ~ In a p1 -> ~ In a p2 -> p1 = p2 /\ q1 = q2).
  { induction p1 as [| x p1 IH]; intros [| y p2] q1 q2 Heq Hn1 Hn2; simpl in *.
    - injection Heq as ->; split; reflexivity.
    - injection Heq as <- _. exfalso; apply Hn2; left; reflexivity.
    - injection Heq as -> _. exfalso; apply Hn1; left; reflexivity.
    - injection Heq as -> Heq.
      destruct (IH p2 q1 q2 Heq) as [-> ->]; [tauto | tauto |].
      split; reflexivity. }
  destruct (Hcut _ _ _ _ H) as [Hm Hl].
  - rewrite <- in_rev; exact H1.
  - rewrite <- in_rev; exact H2.
  - split.
    + rewrite <- (rev_involutive l1), <- (rev_involutive l2), Hl; reflexivity.
    + rewrite <- (rev_involutive m1), <- (rev_involutive m2), Hm; reflexivity.
Qed.

(** [str(n)] is made of digits and a sign. *)
Lemma uint_chars (d : Decimal.uint) (c : Ascii.ascii) :
  In c (list_ascii_of_string (NilEmpty.string_of_uint d)) ->
  In c (list_ascii_of_string "0123456789").
Proof.
  induction d; simpl; intros H; try contradiction;
    destruct H as [<- | H]; simpl; auto 12;
    specialize (IHd H); simpl in IHd; exact IHd.
Qed.

Lemma str_int_chars (n : Z) (c : Ascii.ascii) :
  In c (list_ascii_of_string (Py.str_int n)) ->
  In c (list_ascii_of_string "-0123456789").
Proof.
  unfold Py.str_int, NilZero.string_of_int, NilZero.string_of_uint.
  intros H.
  assert (Hu : forall d, In c (list_ascii_of_string
                                 match d with
                                 | Decimal.Nil => "0"%string
                                 | _ => NilEmpty.string_of_uint d
                                 end) ->
                         In c (list_ascii_of_string "0123456789")).
  { intros d Hd. destruct d; try (apply (uint_chars _ _ Hd)).
    simpl in Hd; destruct Hd as [<- | []]; simpl; auto. }
  destruct (Z.to_int n) as [d | d].
  - right. apply (Hu d H).
  - simpl in H. destruct H as [<- | H]; [left; reflexivity | right; apply (Hu d H)].
Qed.

(** [int(str(n)) = n]: distinct integers have distinct [str]. *)
Lemma str_int_inj (n m : Z) : Py.str_int n = Py.str_int m -> n = m.
Proof.
  unfold Py.str_int. intros H.
  assert (Hnz : forall z, Z.to_int z <> Decimal.Pos Decimal.Nil /\
                          Z.to_int z <> Decimal.Neg Decimal.Nil).
  { intros [| p | p]; simpl; split; try discriminate;
      intros [= Hp]; apply (DecimalPos.Unsigned.to_uint_nonnil p Hp). }
  apply DecimalZ.to_int_inj.
  assert (Some (Z.to_int n) = Some (Z.to_int m)) as [= ->]; [| reflexivity].
  rewrite <- (NilZero.isi (Z.to_int n)), <- (NilZero.isi (Z.to_int m)), H;
    try apply Hnz. reflexivity.
Qed.

End Strings.

(** X1: when no [--output] is given, the run tag is the output path
    without its extension: the four characters sliced off by
    [output_path[:-4]] are exactly [".txt"], whatever the topic-set name
    and [rho]. *)
Theorem tag_is_path_without_extension :
  forall args : Args,
    output args = None ->
    output_path args = append (tag args) ".txt" /\
    tag args =
      append "run." (append (topics args)
        (append ".rho_" (Py.str_int (rho args)))).
Proof.
  intros args Hout. unfold tag. rewrite Hout.
  assert (Hpath : output_path args =
                  append (append "run." (append (topics args)
                            (append ".rho_" (Py.str_int (rho args))))) ".txt").
  { unfold output_path; rewrite Hout. unfold Py.join; simpl.
    rewrite !append_assoc. reflexivity. }
  rewrite Hpath. change 4%nat with (String.length ".txt").
  rewrite drop_last_app. split; reflexivity.
Qed.

(** X2: two default output paths are equal only for the same topic-set
    name and the same [rho]: runs that differ in either never share a
    default output file. *)
Theorem default_output_path_injective :
  forall a1 a2 : Args,
    output a1 = None -> output a2 = None ->
    output_path a1 = output_path a2 ->
    topics a1 = topics a2 /\ rho a1 = rho a2.
Proof.
  intros a1 a2 H1 H2 Heq.
  assert (Hshape : forall a, output a = None ->
            list_ascii_of_string (output_path a) =
            (list_ascii_of_string "run." ++ list_ascii_of_string (topics a) ++
             list_ascii_of_string ".rho") ++
            "_"%char :: (list_ascii_of_string (Py.str_int (rho a)) ++
                         list_ascii_of_string ".txt")).
  { intros a Ha. unfold output_path; rewrite Ha. unfold Py.join.
    cbn [String.concat].
    change ".rho_"%string with (append ".rho" "_").
    rewrite !chars_app, <- !app_assoc. reflexivity. }
  apply (f_equal list_ascii_of_string) in Heq.
  rewrite (Hshape a1 H1), (Hshape a2 H2) in Heq.
  assert (Hno : forall n, ~ In "_"%char
                            (list_ascii_of_string (Py.str_int n) ++
                             list_ascii_of_string ".txt")).
  { intros n Hin. apply in_app_or in Hin as [Hin | Hin].
    - apply str_int_chars in Hin. simpl in Hin.
      repeat (destruct Hin as [Hin | Hin]; [discriminate |]). exact Hin.
    - simpl in Hin.
      repeat (destruct Hin as [Hin | Hin]; [discriminate |]). exact Hin. }
  apply cut_at_last in Heq as [Ht Hr]; try apply Hno.
  apply app_inv_head, app_inv_tail in Ht. apply app_inv_tail in Hr.
  split; [apply chars_inj; exact Ht | apply str_int_inj, chars_inj; exact Hr].
Qed.

(** X3: [str(topic_id)] (line 95) keeps topics apart: when the topic ids
    are pairwise distinct and all integers, or all strings, the ids
    submitted to [batch_search] are pairwise distinct too. *)
Theorem stringified_ids_stay_distinct :
  forall src : list (Py.value * string),
    NoDup (map fst src) ->
    Forall (fun t => exists n, fst t = Py.VInt n) src \/
    Forall (fun t => exists s, fst t = Py.VStr s) src ->
    NoDup (map (fun t => Py.str (fst t)) src).
Proof.
  intros src Hnd Hkind.
  rewrite <- (map_map fst Py.str).
  apply NoDup_map_NoDup_ForallPairs; [| exact Hnd].
  intros v1 v2 H1 H2 Heq.
  apply in_map_iff in H1 as (t1 & <- & Ht1), H2 as (t2 & <- & Ht2).
  destruct Hkind as [Hk | Hk]; rewrite Forall_forall in Hk;
    destruct (Hk t1 Ht1) as [x1 E1], (Hk t2 Ht2) as [x2 E2];
    rewrite E1, E2 in *; simpl in Heq.
  - f_equal; apply str_int_inj; exact Heq.
  - f_equal; exact Heq.
Qed.

(** ** Batch sizes outside the documented range *)

Section OddBatchSizes.

Variables Hits W : Type.
Variable s : Searcher Hits W.
Variable ow : OutputWriter Hits W.
Variable n : Z.

Lemma mod_opp_zero (x b : Z) :
  b <> 0%Z -> (x mod - b =? 0)%Z = (x mod b =? 0)%Z.
Proof.
  intros Hb.
  destruct (Z.eqb_spec (x mod b) 0) as [H0 | Hn0].
  - apply Z.eqb_eq. apply Z.mod_divide in H0; [| exact Hb].
    apply Z.mod_divide; [lia |]. apply Z.divide_opp_l; exact H0.
  - apply Z.eqb_neq. intros H0; apply Hn0.
    apply Z.mod_divide in H0; [| lia].
    apply Z.mod_divide; [exact Hb |]. apply Z.divide_opp_l; exact H0.
Qed.

Lemma bind_eq_l A B (m1 m2 : M Hits W A) (f : A -> M Hits W B) w :
  m1 w = m2 w -> bind m1 f w = bind m2 f w.
Proof. intros H; unfold bind; rewrite H; reflexivity. Qed.

Variable args : Args.
Hypothesis Hthreads : (1 < threads args)%Z.

Lemma loop_body_opp b acc i item w :
  loop_body s ow (set_batch_size args (- b)) n acc i item w =
  loop_body s ow (set_batch_size args b) n acc i item w.
Proof.
  destruct item as [topic_id text]. unfold loop_body, single_mode.
  cbn [set_batch_size batch_size threads hits rho].
  replace (threads args <=? 1)%Z with false by (symmetry; apply Z.leb_gt; exact Hthreads).
  rewrite !andb_false_r. unfold Py.mod_.
  destruct (Z.eqb_spec b 0) as [-> | Hb]; [reflexivity |].
  replace (- b =? 0)%Z with false by (symmetry; apply Z.eqb_neq; lia).
  unfold bind at 1 2 6 7, emit, lift; cbn [fst snd].
  rewrite mod_opp_zero by exact Hb. reflexivity.
Qed.

Lemma for_loop_opp b items : forall i acc w,
    for_loop s ow (set_batch_size args (- b)) n i items acc w =
    for_loop s ow (set_batch_size args b) n i items acc w.
Proof.
  induction items as [| item rest IH]; intros i acc w; simpl; [reflexivity |].
  etransitivity; [apply bind_eq_l, loop_body_opp |].
  apply bind_ext; intros acc' w'; apply IH.
Qed.

End OddBatchSizes.

(** X4: [batch_size = 0] with [threads > 1] is batch mode, and the modulo
    of line 97 divides by zero: on a non-empty topic source the run raises
    [ZeroDivisionError] on the first topic, after entering the writer and
    before any search or write. *)
Theorem zero_batch_size_raises_on_first_topic :
  forall Hits W (s : Searcher Hits W) (ow : OutputWriter Hits W)
         (args : Args) (n : Z) (topic_id : Py.value) (text : string)
         (rest : list (Py.value * string)) (w : W),
    batch_size args = 0%Z -> (1 < threads args)%Z ->
    run s ow args n ((topic_id, text) :: rest) w =
    (inl Py.ZeroDivisionError, w, [EvEnter; EvNext 0 topic_id text; EvExit]).
Proof.
  intros Hits W s ow args n topic_id text rest w Hz Hth.
  unfold run, with_output_writer. cbn [for_loop]. unfold loop_body, single_mode.
  rewrite Hz.
  replace (threads args <=? 1)%Z with false by (symmetry; apply Z.leb_gt; exact Hth).
  reflexivity.
Qed.

(** X5: with [threads > 1] a negative [batch_size] behaves as its absolute
    value: Python's modulo by a negative number is zero for the same
    indices, so the run with [batch_size = -b] is the run with
    [batch_size = b]. *)
Theorem negative_batch_size_acts_as_positive :
  forall Hits W (s : Searcher Hits W) (ow : OutputWriter Hits W)
         (args : Args) (b n : Z) (src : list (Py.value * string)) (w : W),
    (1 < threads args)%Z ->
    run s ow (set_batch_size args (- b)) n src w =
    run s ow (set_batch_size args b) n src w.
Proof.
  intros Hits W s ow args b n src w Hth.
  unfold run, with_output_writer.
  erewrite bind_eq_l; [reflexivity | apply for_loop_opp; exact Hth].
Qed.

(** ** A mapping that lacks an id *)

Section MissingKey.

Variable Hits : Type.

Lemma reproject_first_missing (d : Py.dict Hits) k0 ids :
  In k0 ids -> ~ In k0 (Py.keys d) ->
  exists k, In k ids /\ ~ In k (Py.keys d) /\
            reproject ids d = inl (Py.KeyError k).
Proof.
  intros Hin Hk0. induction ids as [| id_ ids IH]; simpl; [contradiction |].
  unfold Py.getitem. destruct (Py.lookup id_ d) as [h |] eqn:Hh.
  - destruct Hin as [-> | Hin].
    + apply lookup_some_in in Hh; contradiction.
    + destruct (IH Hin) as (k & Hk & Hnk & ->).
      exists k; repeat split; [right; exact Hk | exact Hnk].
  - exists id_; repeat split; [left; reflexivity |].
    intros Hid. apply lookup_in in Hid as [v Hv]. congruence.
Qed.

Lemma reproject_ids (d : Py.dict Hits) ids : forall rs,
    reproject ids d = inr rs ->
    map fst rs = map Py.VStr ids /\
    Forall2 (fun id_ p => Py.lookup id_ d = Some (snd p)) ids rs.
Proof.
  induction ids as [| id_ ids IH]; simpl; intros rs H.
  - injection H as <-; split; constructor.
  - unfold Py.getitem in H. destruct (Py.lookup id_ d) as [h |] eqn:Hh;
      [| discriminate].
    destruct (reproject ids d) as [e | rs']; [discriminate |].
    injection H as <-. destruct (IH rs' eq_refl) as [Hf Hl].
    simpl; split; [rewrite Hf; reflexivity | constructor; assumption].
Qed.

End MissingKey.

(** X6: when the mapping returned for a batch lacks one of the batch's
    ids, the list comprehension of line 101 raises [KeyError] for a
    missing id right after the [batch_search] call: the iteration ends there
    and no pair of that batch is written, not even those whose ids the
    mapping holds. *)
Theorem missing_id_raises_before_any_write :
  forall Hits W (s : Searcher Hits W) (ow : OutputWriter Hits W)
         (args : Args) (n : Z) (acc : accum) (i : nat)
         (topic_id : Py.value) (text : string) (w w1 : W)
         (d : Py.dict Hits) (k0 : string),
    single_mode args = false -> batch_size args <> 0%Z ->
    ((Z.of_nat i + 1) mod batch_size args = 0 \/ Z.of_nat i = n - 1)%Z ->
    let texts := batch_topics acc ++ [text] in
    let ids := batch_topic_ids acc ++ [Py.str topic_id] in
    batch_search s texts ids (hits args) (rho args) (threads args) w
    = (inr d, w1) ->
    In k0 ids -> ~ In k0 (Py.keys d) ->
    exists k,
      In k ids /\ ~ In k (Py.keys d) /\
      loop_body s ow args n acc i (topic_id, text) w =
      (inl (Py.KeyError k), w1,
       [EvNext i topic_id text;
        EvBatchSearch texts ids (hits args) (rho args) (threads args) (inr d)]).
Proof.
  intros Hits W s ow args n acc i topic_id text w w1 d k0 Hmode Hbs Hflush
         texts ids Hs Hin Hk0.
  destruct (@reproject_first_missing Hits d k0 ids Hin Hk0) as (k & Hk & Hnk & Hr).
  exists k; repeat split; try assumption.
  unfold loop_body; rewrite Hmode. unfold Py.mod_.
  replace (batch_size args =? 0)%Z with false by (symmetry; apply Z.eqb_neq; exact Hbs).
  unfold bind at 1 2, emit, lift; cbn [fst snd].
  replace (((Z.of_nat i + 1) mod batch_size args =? 0)%Z
           || (Z.of_nat i =? n - 1)%Z) with true.
  2:{ symmetry; apply orb_true_iff.
      destruct Hflush as [H | H]; [left | right]; apply Z.eqb_eq; exact H. }
  unfold bind, call, lift. fold texts ids. rewrite Hs, Hr. reflexivity.
Qed.

(** ** Failures of any collaborator *)

Section AnyFailure.

Variables Hits W : Type.

Lemma stops_bind A B (m : M Hits W A) (f : A -> M Hits W B) :
  (forall w, stops_at_failure (m w)) ->
  (forall a w, stops_at_failure (f a w)) ->
  forall w, stops_at_failure (bind m f w).
Proof.
  intros Hm Hf w; specialize (Hm w); unfold bind.
  destruct (m w) as [[[e | a] w1] t1]; [exact Hm |].
  specialize (Hf a w1); destruct (f a w1) as [[[e | b] w2] t2];
    unfold stops_at_failure in *; cbn [outcome trace fst snd] in *.
  - destruct Hf as [Hq | (pre & ev & -> & Hq & He)].
    + left; apply Forall_app; split; assumption.
    + right; exists (t1 ++ pre), ev; rewrite app_assoc.
      repeat split; [apply Forall_app; split; assumption | exact He].
  - apply Forall_app; split; assumption.
Qed.

Lemma stops_calm A (m : M Hits W A) :
  logs (@calm Hits) m -> forall w, stops_at_failure (m w).
Proof.
  intros H w; specialize (H w); unfold stops_at_failure.
  destruct (outcome (m w)); [left |]; exact H.
Qed.

Lemma stops_call A (op : W -> Py.result A * W) (log : Py.result A -> event Hits) :
  (forall e, call_failure (log (inl e)) = Some e) ->
  (forall a, call_failure (log (inr a)) = None) ->
  forall w, stops_at_failure (call op log w).
Proof.
  intros Hl Hr w; unfold call, stops_at_failure; destruct (op w) as [[e | a] w1];
    cbn [outcome trace fst snd].
  - right; exists [], (log (inl e)); repeat split; [constructor | apply Hl].
  - repeat constructor; apply Hr.
Qed.

Variable s : Searcher Hits W.
Variable ow : OutputWriter Hits W.
Variable args : Args.
Variable n : Z.

Lemma stops_write_results rs : forall w,
    stops_at_failure (write_results ow rs w).
Proof.
  induction rs as [| [topic h] rs IH]; simpl.
  - apply stops_calm, logs_ret.
  - apply stops_bind; [apply stops_call; reflexivity | intros _; exact IH].
Qed.

Lemma stops_loop_body acc i item w :
  stops_at_failure (loop_body s ow args n acc i item w).
Proof.
  revert w; destruct item as [topic_id text]; unfold loop_body.
  apply stops_bind; [apply stops_calm, logs_emit; reflexivity | intros _].
  destruct (single_mode args).
  - apply stops_bind; [apply stops_call; reflexivity | intros h].
    apply stops_bind; [apply stops_write_results | intros _].
    apply stops_calm, logs_ret.
  - apply stops_bind; [apply stops_calm, logs_lift | intros m].
    destruct (_ || _); [| apply stops_calm, logs_ret].
    apply stops_bind; [apply stops_call; reflexivity | intros d].
    apply stops_bind; [apply stops_calm, logs_lift | intros rs].
    apply stops_bind; [apply stops_write_results | intros _].
    apply stops_calm, logs_ret.
Qed.

Lemma stops_for_loop items : forall i acc w,
    stops_at_failure (for_loop s ow args n i items acc w).
Proof.
  induction items as [| item rest IH]; intros i acc; simpl.
  - apply stops_calm, logs_ret.
  - apply stops_bind; [apply stops_loop_body | intros acc'; apply IH].
Qed.

Lemma last_is_unique A (P : A -> Prop) (pre post p : list A) x x' :
  pre ++ x :: post = p ++ [x'] -> Forall P p -> ~ P x -> post = [] /\ x = x'.
Proof.
  intros Heq Hq Hx.
  destruct (exists_last (l:=x :: post)) as (l & a & Hl); [discriminate |].
  rewrite Hl, app_assoc in Heq. apply app_inj_tail in Heq as [<- <-].
  destruct post as [| y post].
  - change [x] with ([] ++ [x]) in Hl.
    apply app_inj_tail in Hl as [_ <-]; split; reflexivity.
  - exfalso; apply Hx.
    destruct l as [| c l]; [discriminate |].
    injection Hl as <- _.
    apply Forall_app in Hq as [_ Hq]; inversion Hq; assumption.
Qed.

(** A failed call of a run is followed by the exit of the writer only, and
    is the outcome of the run. *)
Lemma run_stops_at_failure src w pre ev post e :
  trace (run s ow args n src w) = pre ++ ev :: post ->
  call_failure ev = Some e ->
  outcome (run s ow args n src w) = inl e /\ post = [EvExit].
Proof.
  intros Ht Hev.
  rewrite run_unfold in *; cbn [outcome trace fst snd] in *.
  pose proof (stops_for_loop src 0 empty w) as Hf.
  set (x := for_loop s ow args n 0 src empty w) in *.
  assert (Hnq : ~ calm ev) by (unfold calm; rewrite Hev; discriminate).
  destruct pre as [| ev0 pre]; simpl in Ht.
  { injection Ht as <- _; discriminate. }
  injection Ht as _ Ht.
  destruct (exists_last (l:=ev :: post)) as (l & a & Hl); [discriminate |].
  rewrite Hl, app_assoc in Ht. apply app_inj_tail in Ht as [Ht <-].
  destruct l as [| ev1 post'].
  { injection Hl as -> _; discriminate. }
  simpl in Hl; injection Hl as <- ->.
  assert (Hin : ~ Forall calm (trace x)).
  { rewrite Ht; intros H; apply Forall_app in H as [_ H].
    inversion H; contradiction. }
  unfold stops_at_failure in Hf. destruct (outcome x) as [e' | acc].
  - destruct Hf as [Hq | (p & ev' & Hp & Hq & He)]; [contradiction |].
    rewrite Ht in Hp. apply last_is_unique with (P := calm) in Hp as [-> <-];
      try assumption.
    split; [congruence | reflexivity].
  - contradiction.
Qed.

End AnyFailure.

(** X7: a [write] that raises is not caught by the loop either (lines
    107-109 have no handler): the run raises the writer's exception, and
    the only event after the failed write is the exit of the writer. The
    remaining pairs of the batch are not written and no further topic is
    taken. *)
Theorem write_errors_abort_the_run :
  forall Hits W (s : Searcher Hits W) (ow : OutputWriter Hits W)
         (args : Args) (n : Z) (src : list (Py.value * string)) (w : W)
         (pre post : list (event Hits)) (topic : Py.value) (h : Hits)
         (e : Py.exn),
    trace (run s ow args n src w) = pre ++ EvWrite topic h (inl e) :: post ->
    outcome (run s ow args n src w) = inl e /\ post = [EvExit].
Proof.
  intros Hits W s ow args n src w pre post topic h e Ht.
  apply (@run_stops_at_failure Hits W s ow args n src w pre
           (EvWrite topic h (inl e)) post e Ht).
  reflexivity.
Qed.

(** ** Order of the topics taken and of the pairs written *)

Section Prefixes.

Variable T : Type.
Implicit Types l p m : list T.

Lemma is_prefix_nil l : is_prefix [] l.
Proof. exists l; reflexivity. Qed.

Lemma is_prefix_refl l : is_prefix l l.
Proof. exists []; symmetry; apply app_nil_r. Qed.

Lemma is_prefix_app_l p l1 l2 : is_prefix l1 l2 -> is_prefix (p ++ l1) (p ++ l2).
Proof. intros [m ->]; exists m; apply app_assoc. Qed.

Lemma is_prefix_app_r l1 l2 m : is_prefix l1 l2 -> is_prefix l1 (l2 ++ m).
Proof. intros [m' ->]; exists (m' ++ m); symmetry; apply app_assoc. Qed.

Lemma is_prefix_of_app l1 l2 : is_prefix l1 (l1 ++ l2).
Proof. exists l2; reflexivity. Qed.

Lemma is_prefix_map U (f : T -> U) l1 l2 :
  is_prefix l1 l2 -> is_prefix (map f l1) (map f l2).
Proof. intros [m ->]; exists (map f m); apply map_app. Qed.

End Prefixes.

Section InOrder.

Variables Hits W : Type.
Variable s : Searcher Hits W.
Variable ow : OutputWriter Hits W.
Variable args : Args.
Variable n : Z.

(** The writes of a list of pairs: an initial part of it, all of it when
    they return. *)
Lemma write_results_prefix rs : forall w,
    consumed (trace (write_results ow rs w)) = [] /\
    is_prefix (dispatches (trace (write_results ow rs w))) rs /\
    (forall u, outcome (write_results ow rs w) = inr u ->
               dispatches (trace (write_results ow rs w)) = rs).
Proof.
  induction rs as [| [topic h] rs IH]; intros w; simpl.
  - split; [reflexivity | split; [apply is_prefix_nil | reflexivity]].
  - unfold bind, call. destruct (write ow topic h w) as [[e | []] w1].
    + cbn. split; [reflexivity | split; [exists rs; reflexivity | discriminate]].
    + destruct (IH w1) as (Hc & Hp & Hall).
      destruct (write_results ow rs w1) as [[r w2] t2];
        cbn [outcome world trace fst snd] in *.
      cbn. fold (consumed t2) (dispatches t2).
      split; [exact Hc | split; [apply (is_prefix_app_l [(topic, h)]); exact Hp |]].
      intros u Hu. rewrite (Hall u Hu); reflexivity.
Qed.

(** In single mode the accumulators stay as they are. *)
Lemma loop_body_single_acc acc i item w acc' :
  single_mode args = true ->
  outcome (loop_body s ow args n acc i item w) = inr acc' -> acc' = acc.
Proof.
  intros Hmode. destruct item as [topic_id text].
  unfold loop_body; rewrite Hmode. unfold bind, emit, call, ret; cbn [write_results].
  unfold bind, call, ret.
  destruct (search s text (hits args) (rho args) w) as [[e | h] w1];
    [discriminate |].
  destruct (write ow topic_id h w1) as [[e | []] w2]; [discriminate |].
  cbn. intros [= <-]; reflexivity.
Qed.

Lemma loop_body_in_order acc i item w :
  (single_mode args = true -> batch_topic_ids acc = []) ->
  in_order args acc [item] (loop_body s ow args n acc i item w).
Proof.
  intros Hpre. destruct item as [topic_id text]. unfold loop_body.
  destruct (single_mode args) eqn:Hmode.
  - unfold bind, emit, call, ret; cbn [write_results]. unfold bind, call, ret.
    destruct (search s text (hits args) (rho args) w) as [[e | h] w1];
      [| destruct (write ow topic_id h w1) as [[e | []] w2]];
      unfold in_order, dispatch_id; rewrite Hmode; cbn;
      rewrite ?(Hpre eq_refl); cbn.
    + split; [apply is_prefix_refl | apply is_prefix_nil].
    + split; apply is_prefix_refl.
    + split; [apply is_prefix_refl | split; reflexivity].
  - unfold Py.mod_. destruct (batch_size args =? 0)%Z.
    { unfold bind, emit, lift, in_order; cbn.
      split; [apply is_prefix_refl | apply is_prefix_nil]. }
    unfold bind, emit, lift, call, ret. cbv beta iota.
    destruct (_ || _).
    2:{ unfold in_order, dispatch_id; rewrite Hmode; cbn. rewrite map_app.
        split; [apply is_prefix_refl | split; reflexivity]. }
    destruct (batch_search s _ _ _ _ _ w) as [[e | d] w1].
    { unfold in_order; cbn. split; [apply is_prefix_refl | apply is_prefix_nil]. }
    destruct (reproject _ d) as [e | rs] eqn:Hr.
    { unfold in_order; cbn. split; [apply is_prefix_refl | apply is_prefix_nil]. }
    apply reproject_ids in Hr as [Hids _].
    destruct (write_results_prefix rs w1) as (Hc & Hp & Hall).
    destruct (write_results ow rs w1) as [[[e | u] w2] t2];
      cbn [outcome world trace fst snd] in *;
      unfold in_order, dispatch_id; rewrite Hmode; cbn;
      rewrite ?app_nil_r; fold (consumed t2) (dispatches t2); rewrite Hc;
      cbn [map].
    + split; [apply is_prefix_refl |].
      change [Py.VStr (Py.str topic_id)] with (map Py.VStr [Py.str topic_id]).
      rewrite <- map_app, <- Hids. apply is_prefix_map; exact Hp.
    + rewrite (Hall u eq_refl), Hids, map_app.
      split; [apply is_prefix_refl | split; reflexivity].
Qed.

Lemma for_loop_in_order items : forall i acc w,
    (single_mode args = true -> batch_topic_ids acc = []) ->
    in_order args acc items (for_loop s ow args n i items acc w).
Proof.
  induction items as [| item rest IH]; intros i acc w Hpre.
  - unfold in_order; cbn. rewrite !app_nil_r.
    split; [apply is_prefix_nil | split; reflexivity].
  - cbn [for_loop]. unfold bind.
    pose proof (loop_body_in_order acc i item w Hpre) as Hbody.
    pose proof (@loop_body_single_acc acc i item w) as Hsame.
    destruct (loop_body s ow args n acc i item w) as [[[e | acc1] w1] t1];
      unfold in_order in Hbody; cbn [outcome world trace fst snd] in *.
    + destruct Hbody as [Hc Hd]. unfold in_order; cbn [outcome trace fst snd].
      split; [| exact Hd].
      apply (is_prefix_app_r (l2 := [item]) rest); exact Hc.
    + destruct Hbody as (_ & Hc1 & Hd1).
      assert (Hpre1 : single_mode args = true -> batch_topic_ids acc1 = []).
      { intros Hm. rewrite (Hsame acc1 Hm eq_refl). apply Hpre; exact Hm. }
      specialize (IH (S i) acc1 w1 Hpre1). unfold in_order in IH.
      destruct (for_loop s ow args n (S i) rest acc1 w1) as [[r2 w2] t2];
        cbn [outcome world trace fst snd] in *.
      destruct IH as [Hc2 Hd2]. unfold in_order; cbn [outcome trace fst snd].
      rewrite Hc1 in Hd1. cbn [map] in Hd1.
      rewrite consumed_app, dispatches_app, Hc1, !map_app. cbn [app map].
      assert (Htarget :
                map Py.VStr (batch_topic_ids acc) ++
                dispatch_id args (fst item) ::
                map (dispatch_id args) (map fst (consumed t2)) =
                map fst (dispatches t1) ++
                (map Py.VStr (batch_topic_ids acc1) ++
                 map (dispatch_id args) (map fst (consumed t2)))).
      { change (dispatch_id args (fst item) ::
                map (dispatch_id args) (map fst (consumed t2)))
          with ([dispatch_id args (fst item)] ++
                map (dispatch_id args) (map fst (consumed t2))).
        rewrite app_assoc, <- Hd1, <- app_assoc. reflexivity. }
      rewrite Htarget.
      split; [apply (is_prefix_app_l [item]); exact Hc2 |].
      destruct r2 as [e | acc2].
      * apply is_prefix_app_l; exact Hd2.
      * destruct Hd2 as [Hc2' Hd2]. split; [rewrite Hc2'; reflexivity |].
        rewrite <- app_assoc, Hd2. reflexivity.
Qed.

End InOrder.

(** X8: whatever the collaborators do and whatever the configuration, a
    run takes the topics in source order and writes pairs in the order of
    the topics taken, without skipping, repeating or reordering: the topics
    taken are an initial part of the source (all of it when the run
    returns), and the ids written are an initial part of the ids of the
    topics taken. *)
Theorem pairs_written_in_topic_order :
  forall Hits W (s : Searcher Hits W) (ow : OutputWriter Hits W)
         (args : Args) (n : Z) (src : list (Py.value * string)) (w : W),
    let x := run s ow args n src w in
    is_prefix (consumed (trace x)) src /\
    is_prefix (map fst (dispatches (trace x)))
              (map (dispatch_id args) (map fst (consumed (trace x)))) /\
    (outcome x = inr tt -> consumed (trace x) = src).
Proof.
  intros Hits W s ow args n src w x; subst x.
  pose proof (@for_loop_in_order Hits W s ow args n src 0 empty w
                                 (fun _ => eq_refl)) as H.
  rewrite run_unfold; cbn [outcome world trace fst snd].
  unfold in_order in H. cbn [batch_topic_ids empty map app] in H.
  set (y := for_loop s ow args n 0 src empty w) in *.
  assert (Hc : consumed (EvEnter :: trace y ++ [EvExit]) = consumed (trace y)).
  { unfold consumed; cbn [flat_map consumed_of app].
    rewrite flat_map_app; cbn. apply app_nil_r. }
  assert (Hd : dispatches (EvEnter :: trace y ++ [EvExit]) = dispatches (trace y)).
  { unfold dispatches; cbn [flat_map dispatch_of app].
    rewrite flat_map_app; cbn. apply app_nil_r. }
  rewrite Hc, Hd. destruct H as [Hpre Hout]. split; [exact Hpre |].
  destruct (outcome y) as [e | acc'].
  - split; [exact Hout | discriminate].
  - destruct Hout as [Hall Heq]. split; [| intros _; exact Hall].
    rewrite <- Heq. apply is_prefix_of_app.
Qed.

(** ** The calls made to the searcher *)

Section Calls.

Variables Hits W : Type.
Variable s : Searcher Hits W.
Variable ow : OutputWriter Hits W.
Variable args : Args.
Variable n : Z.

Lemma well_formed_write_results rs : logs (well_formed_call args) (write_results ow rs).
Proof.
  induction rs as [| [topic h] rs IH]; simpl.
  - apply logs_ret.
  - apply logs_bind; [apply logs_call; intros; exact I | intros _; exact IH].
Qed.

Lemma well_formed_single acc i item :
  single_mode args = true -> logs (well_formed_call args) (loop_body s ow args n acc i item).
Proof.
  intros Hmode. destruct item as [topic_id text]. unfold loop_body. rewrite Hmode.
  apply logs_bind; [apply logs_emit; exact I | intros _].
  apply logs_bind; [apply logs_call; intros; split; reflexivity | intros h].
  apply logs_bind; [apply well_formed_write_results | intros _; apply logs_ret].
Qed.

Variable b : nat.
Hypothesis Hmode : single_mode args = false.
Hypothesis Hb : batch_size args = Z.of_nat b.
Hypothesis Hb1 : (1 <= b)%nat.

Lemma well_formed_batch acc i item :
  fits b acc i ->
  logs (well_formed_call args) (loop_body s ow args n acc i item).
Proof.
  intros [Hlen Hle]. destruct item as [topic_id text].
  unfold loop_body. rewrite Hmode.
  apply logs_bind; [apply logs_emit; exact I | intros _].
  apply logs_bind; [apply logs_lift | intros m].
  destruct (_ || _); [| apply logs_ret].
  apply logs_bind.
  - apply logs_call. intros res. unfold well_formed_call.
    rewrite !length_app, Hlen, Hb. cbn [List.length].
    pose proof (Nat.mod_upper_bound i b ltac:(lia)).
    repeat split; lia.
  - intros d. apply logs_bind; [apply logs_lift | intros rs].
    apply logs_bind; [apply well_formed_write_results | intros _; apply logs_ret].
Qed.

Lemma loop_body_fits acc i item w acc' :
  fits b acc i ->
  outcome (loop_body s ow args n acc i item w) = inr acc' -> fits b acc' (S i).
Proof.
  intros [Hlen Hle]. destruct item as [topic_id text].
  batch_branch Hmode Hb.
  unfold bind at 1 2, emit, lift; cbn [fst snd].
  rewrite flush_test by exact Hb1.
  destruct (Nat.eqb_spec (i mod b + 1) b) as [Hfull | Hpart]; cbn [orb].
  2: destruct (Z.of_nat i =? n - 1)%Z.
  1,2: unfold bind, call, lift, ret;
    destruct (batch_search s _ _ _ _ _ w) as [[e | d] w1]; [discriminate |];
    destruct (reproject _ d) as [e | rs]; [discriminate |];
    destruct (write_results ow rs w1) as [[[e | []] w2] t2]; [discriminate |];
    cbn; intros [= <-]; split; [reflexivity | cbn; lia].
  unfold ret; cbn. intros [= <-]. unfold fits; cbn [batch_topics batch_topic_ids].
  rewrite !length_app, Hlen, succ_mod by lia. cbn [List.length].
  apply Nat.eqb_neq in Hpart. rewrite Hpart. split; lia.
Qed.

Lemma well_formed_for_loop items : forall i acc w,
    fits b acc i ->
    Forall (well_formed_call args)
           (trace (for_loop s ow args n i items acc w)).
Proof.
  induction items as [| item rest IH]; intros i acc w Hfits; cbn [for_loop].
  - constructor.
  - pose proof (well_formed_batch item Hfits w) as Hbody.
    pose proof (@loop_body_fits acc i item w) as Hnext.
    unfold bind.
    destruct (loop_body s ow args n acc i item w) as [[[e | acc1] w1] t1];
      cbn [outcome trace fst snd] in *; [exact Hbody |].
    specialize (IH (S i) acc1 w1 (Hnext acc1 Hfits eq_refl)).
    destruct (for_loop s ow args n (S i) rest acc1 w1) as [[r2 w2] t2];
      cbn [trace snd] in *.
    apply Forall_app; split; assumption.
Qed.

End Calls.

(** X9: with [batch_size >= 1], every call to the searcher is made with
    the configured parameters, whatever the collaborators do: [search] gets
    [(text, hits, rho)], and [batch_search] gets [hits], [rho] and
    [threads] with as many texts as ids, at least one and at most
    [batch_size] of them. *)
Theorem searcher_calls_are_well_formed :
  forall Hits W (s : Searcher Hits W) (ow : OutputWriter Hits W)
         (args : Args) (n : Z) (src : list (Py.value * string)) (w : W),
    (1 <= batch_size args)%Z ->
    Forall (well_formed_call args) (trace (run s ow args n src w)).
Proof.
  intros Hits W s ow args n src w Hbs.
  rewrite run_unfold; cbn [trace snd].
  constructor; [exact I |]. apply Forall_app; split; [| repeat constructor].
  destruct (single_mode args) eqn:Hmode.
  - clear Hbs. generalize 0%nat (empty) w.
    induction src as [| item rest IH]; intros i acc w0; cbn [for_loop].
    + constructor.
    + apply logs_bind; [apply well_formed_single; exact Hmode | intros acc'].
      intros w1; apply IH.
  - apply (@well_formed_for_loop Hits W s ow args n (Z.to_nat (batch_size args)));
      try solve [assumption | lia].
    split; [reflexivity | cbn; lia].
Qed.

(** ** Where the hits written come from *)

Section PassingOn.

Variables Hits W : Type.
Implicit Types t : list (event Hits).

Lemma last_answer_app t1 t2 :
  last_answer (t1 ++ t2) =
  match last_answer t2 with
  | Some a => Some a
  | None => last_answer t1
  end.
Proof.
  induction t1 as [| ev t1 IH]; simpl.
  - destruct (last_answer t2); reflexivity.
  - rewrite IH. destruct (last_answer t2); reflexivity.
Qed.

Lemma last_answer_none t :
  Forall (fun ev => answer_of ev = None) t -> last_answer t = None.
Proof.
  induction 1 as [| ev t Hev _ IH]; simpl; [reflexivity |].
  rewrite IH; exact Hev.
Qed.

Lemma split_at A (l1 l2 pre post : list A) x :
  l1 ++ l2 = pre ++ x :: post ->
  (exists post', l1 = pre ++ x :: post' /\ post = post' ++ l2) \/
  (exists pre', pre = l1 ++ pre' /\ l2 = pre' ++ x :: post).
Proof.
  intros H. apply app_eq_app in H as [l [[H1 H2] | [H1 H2]]].
  - destruct l as [| y l].
    + right; exists []. rewrite app_nil_r in H1. simpl in H2. subst.
      split; [symmetry; apply app_nil_r | reflexivity].
    + injection H2 as <- ->. left; exists l; split; [exact H1 | reflexivity].
  - right; exists l; split; assumption.
Qed.

Lemma passes_on_app t1 t2 :
  passes_on t1 -> passes_on t2 -> passes_on (t1 ++ t2).
Proof.
  intros H1 H2 pre topic h res post Heq.
  apply split_at in Heq as [(post' & Ht1 & _) | (pre' & -> & Ht2)].
  - apply (H1 pre topic h res post' Ht1).
  - destruct (H2 pre' topic h res post Ht2) as (a & Ha & Hans).
    exists a; split; [| exact Hans]. rewrite last_answer_app, Ha; reflexivity.
Qed.

Lemma passes_on_quiet t :
  Forall (fun ev => dispatch_of ev = []) t -> passes_on t.
Proof.
  intros Hq pre topic h res post Heq. subst t.
  apply Forall_app in Hq as [_ Hq]. inversion Hq as [| ? ? Hw _]; subst.
  discriminate.
Qed.

(** After an answer [a] of the searcher, writes that pass [a] on. *)
Lemma passes_on_block a (p tw : list (event Hits)) :
  last_answer p = Some a ->
  Forall (fun ev => dispatch_of ev = []) p ->
  Forall (fun ev => match ev with
                    | EvWrite topic h _ => answers a topic h
                    | _ => False
                    end) tw ->
  passes_on (p ++ tw).
Proof.
  intros Ha Hp Htw pre topic h res post Heq.
  apply split_at in Heq as [(post' & Hin & _) | (pre' & -> & Hin)].
  - exfalso. subst p. apply Forall_app in Hp as [_ Hp].
    inversion Hp as [| ? ? Hw _]; subst. discriminate.
  - subst tw. apply Forall_app in Htw as [Hpre Hw].
    inversion Hw as [| ? ? Hans _]; subst.
    exists a; split; [| exact Hans].
    rewrite last_answer_app, last_answer_none; [exact Ha |].
    eapply Forall_impl; [| exact Hpre].
    intros [] H; try contradiction; reflexivity.
Qed.

Variable s : Searcher Hits W.
Variable ow : OutputWriter Hits W.
Variable args : Args.
Variable n : Z.

Lemma write_results_events rs :
  logs (fun ev => match ev with
                  | EvWrite topic h _ => In (topic, h) rs
                  | _ => False
                  end) (write_results ow rs).
Proof.
  induction rs as [| [topic h] rs IH]; simpl.
  - apply logs_ret.
  - apply logs_bind.
    + apply logs_call; intros res; left; reflexivity.
    + intros _ w. eapply Forall_impl; [| apply IH].
      intros [] H; try contradiction. right; exact H.
Qed.

Lemma reproject_entries (d : Py.dict Hits) ids : forall rs topic h,
    reproject ids d = inr rs -> In (topic, h) rs ->
    exists id_, topic = Py.VStr id_ /\ Py.lookup id_ d = Some h.
Proof.
  induction ids as [| id_ ids IH]; simpl; intros rs topic h H Hin.
  - injection H as <-; contradiction.
  - unfold Py.getitem in H. destruct (Py.lookup id_ d) as [h0 |] eqn:Hh;
      [| discriminate].
    destruct (reproject ids d) as [e | rs']; [discriminate |].
    injection H as <-. destruct Hin as [[= <- <-] | Hin].
    + exists id_; split; [reflexivity | exact Hh].
    + apply (IH rs' topic h eq_refl Hin).
Qed.

Lemma loop_body_passes_on acc i item w :
  passes_on (trace (loop_body s ow args n acc i item w)).
Proof.
  destruct item as [topic_id text]. unfold loop_body.
  destruct (single_mode args).
  - unfold bind, emit, call, ret. cbv beta iota.
    destruct (search s text (hits args) (rho args) w) as [[e | h] w1].
    + apply passes_on_quiet; repeat constructor.
    + pose proof (write_results_events [(topic_id, h)] w1) as Hw.
      destruct (write_results ow [(topic_id, h)] w1) as [[[e | []] w2] t2];
        cbn [trace snd app] in *; rewrite ?app_nil_r;
        apply (@passes_on_block (inl h)
                 [EvNext i topic_id text;
                  EvSearch text (hits args) (rho args) (inr h)] t2);
        try solve [reflexivity | repeat constructor];
        (eapply Forall_impl; [| exact Hw]);
        intros [] H; try contradiction;
        destruct H as [[= <- <-] | []]; reflexivity.
  - unfold Py.mod_. destruct (batch_size args =? 0)%Z.
    { apply passes_on_quiet; repeat constructor. }
    unfold bind, emit, lift, call, ret. cbv beta iota.
    destruct (_ || _); [| apply passes_on_quiet; repeat constructor].
    destruct (batch_search s _ _ _ _ _ w) as [[e | d] w1].
    { apply passes_on_quiet; repeat constructor. }
    destruct (reproject _ d) as [e | rs] eqn:Hr.
    { apply passes_on_quiet; repeat constructor. }
    pose proof (write_results_events rs w1) as Hw.
    destruct (write_results ow rs w1) as [[[e | []] w2] t2];
      cbn [trace snd app] in *; rewrite ?app_nil_r;
      apply (@passes_on_block (inr d)
               [EvNext i topic_id text;
                EvBatchSearch (batch_topics acc ++ [text])
                              (batch_topic_ids acc ++ [Py.str topic_id])
                              (hits args) (rho args) (threads args) (inr d)] t2);
      try solve [reflexivity | repeat constructor];
      (eapply Forall_impl; [| exact Hw]);
      intros [] H; try contradiction;
      eapply reproject_entries; eassumption.
Qed.

Lemma for_loop_passes_on items : forall i acc w,
    passes_on (trace (for_loop s ow args n i items acc w)).
Proof.
  induction items as [| item rest IH]; intros i acc w; cbn [for_loop].
  - apply passes_on_quiet; constructor.
  - pose proof (loop_body_passes_on acc i item w) as Hbody. unfold bind.
    destruct (loop_body s ow args n acc i item w) as [[[e | acc1] w1] t1];
      cbn [trace snd] in *; [exact Hbody |].
    specialize (IH (S i) acc1 w1).
    destruct (for_loop s ow args n (S i) rest acc1 w1) as [[r2 w2] t2];
      cbn [trace snd] in *.
    apply passes_on_app; assumption.
Qed.

End PassingOn.

(** X10: the hits written are the searcher's, unmodified: whatever the
    collaborators do, every [write(topic, hits)] of a run passes on what
    the searcher last returned before it: the hits of the [search] call in
    single mode, and in batch mode the entry that the mapping of the last
    [batch_search] call holds for the id written. *)
Theorem written_hits_come_from_the_searcher :
  forall Hits W (s : Searcher Hits W) (ow : OutputWriter Hits W)
         (args : Args) (n : Z) (src : list (Py.value * string)) (w : W)
         (pre post : list (event Hits)) (topic : Py.value) (h : Hits)
         (res : Py.result unit),
    trace (run s ow args n src w) = pre ++ EvWrite topic h res :: post ->
    exists a, last_answer pre = Some a /\ answers a topic h.
Proof.
  intros Hits W s ow args n src w pre post topic h res.
  rewrite run_unfold; cbn [trace snd].
  change (EvEnter :: trace (for_loop s ow args n 0 src empty w) ++ [EvExit])
    with ([EvEnter] ++ trace (for_loop s ow args n 0 src empty w) ++ [EvExit]).
  apply passes_on_app; [apply passes_on_quiet; repeat constructor |].
  apply passes_on_app; [apply for_loop_passes_on |].
  apply passes_on_quiet; repeat constructor.
Qed.

(** ** A topic count that does not match the iterator *)

Section Mismatch.

Variables Hits W : Type.
Variable s : Searcher Hits W.
Variable ow : OutputWriter Hits W.
Variable args : Args.
Variable n : Z.
Variable b : nat.
Variable src : list (Py.value * string).

Hypothesis Hmode : single_mode args = false.
Hypothesis Hb : batch_size args = Z.of_nat b.
Hypothesis Hb1 : (1 <= b)%nat.
Hypothesis Hs : batch_search_covers s.
Hypothesis Hw : write_returns ow.

(** No index of the source is [len(topics.keys()) - 1]. *)
Hypothesis Hn : (n <= 0 \/ Z.of_nat (List.length src) < n)%Z.

Lemma firstn_pending k :
  (k <= List.length src)%nat ->
  firstn k src = firstn (k - k mod b) src ++ pending b k src.
Proof.
  intros Hk. unfold pending.
  rewrite <- (firstn_skipn (k - k mod b) (firstn k src)) at 1.
  rewrite firstn_firstn. f_equal. f_equal. lia.
Qed.

Lemma prefix_without_end w : forall k,
    (k <= List.length src)%nat ->
    exists acc w' tr batches,
      for_loop s ow args n 0 (firstn k src) empty w = (inr acc, w', tr) /\
      holds acc (pending b k src) /\
      batch_calls tr = map as_call batches /\
      Forall (fun batch => List.length batch = b) batches /\
      List.concat batches = firstn (k - k mod b) src /\
      map fst (dispatches tr) =
        map (fun t => Py.VStr (Py.str (fst t))) (firstn (k - k mod b) src) /\
      consumed tr = firstn k src.
Proof.
  induction k as [| k IH]; intros Hk.
  - exists empty, w, [], []. repeat split. constructor.
  - destruct (IH ltac:(lia))
      as (acc & w1 & t1 & batches & Hrun & Hacc & Hbc & Hfull & Hcat & Hd & Hc).
    destruct (@firstn_snoc _ src k ltac:(lia)) as ([topic_id text] & _ & Hf).
    rewrite Hf, for_loop_app. erewrite bind_inr by exact Hrun.
    rewrite for_loop_one, length_firstn.
    replace (0 + Nat.min k (List.length src))%nat with k by lia.
    rewrite (@pending_succ _ b Hb1 src k (topic_id, text)) by (lia || exact Hf).
    rewrite succ_mod by lia.
    destruct (Nat.eqb_spec (k mod b + 1) b) as [Hfl | Hpart].
    + destruct (@loop_body_close Hits W s ow args n b Hmode Hb Hb1 Hw
                  (pending b k src ++ [(topic_id, text)]) carries_id
                  (fun batch w0 H => @covered_calls Hits W s args _ Hs batch w0 H)
                  acc (pending b k src) [] [] k topic_id text w1
                  eq_refl Hacc (or_introl Hfl))
        as (w2 & tr & rs & Hbody & Hbcr & Hdr & Hg & Hcr).
      exists empty, w2, (t1 ++ tr), (batches ++ [pending b k src ++ [(topic_id, text)]]).
      rewrite Hbody; cbn [outcome world trace fst snd].
      assert (Hhead : firstn (k - k mod b) src ++
                      pending b k src ++ [(topic_id, text)] =
                      firstn k src ++ [(topic_id, text)]).
      { rewrite (firstn_pending (k:=k)) at 1 by lia.
        rewrite <- app_assoc. reflexivity. }
      split; [reflexivity | split; [reflexivity |]].
      rewrite batch_calls_app, dispatches_app, consumed_app, !map_app,
        Hbc, Hbcr, Hd, Hc, Hcr, Hdr, Nat.sub_0_r, Hf.
      split; [reflexivity |]. split.
      { apply Forall_app; split; [exact Hfull |]. repeat constructor.
        rewrite length_app, (pending_length Hb1 src (i:=k)) by lia.
        cbn; lia. }
      split.
      { rewrite concat_app, Hcat. cbn [List.concat]. rewrite app_nil_r.
        exact Hhead. }
      split; [| reflexivity].
      rewrite (map_carries_id Hg), <- map_app, Hhead. reflexivity.
    + rewrite (@loop_body_keep Hits W s ow args n b Hmode Hb Hb1)
        by (exact Hpart || lia).
      cbn [outcome world trace fst snd].
      eexists _, w1, (t1 ++ [EvNext k topic_id text]), batches.
      split; [reflexivity | split; [apply holds_snoc; exact Hacc |]].
      rewrite batch_calls_app, dispatches_app, consumed_app, Hc.
      change (dispatches [EvNext k topic_id text])
        with (@nil (Py.value * Hits)).
      change (batch_calls (@cons (event Hits) (EvNext k topic_id text) nil))
        with (@nil (list string * list string)).
      change (consumed (@cons (event Hits) (EvNext k topic_id text) nil))
        with [(topic_id, text)].
      rewrite !app_nil_r, Hd, Hbc.
      pose proof (Nat.Div0.mod_le k b).
      replace (S k - (k mod b + 1))%nat with (k - k mod b)%nat by lia.
      repeat split; assumption.
Qed.

End Mismatch.

(** X11: the end-of-stream test of line 98 compares the index with
    [len(topics.keys())], not with the iterator. When that count matches no
    index of the topics iterated (it is larger than their number, or not
    positive), a batch-mode run closes full batches only: it returns
    normally having taken every topic, its [batch_search] calls are
    consecutive batches of exactly [batch_size] topics covering the first
    [N - N mod batch_size] topics, [search] is not called, and only those
    topics are written: the last [N mod batch_size] topics are never
    searched or written. *)
Theorem partial_batch_needs_matching_count :
  forall Hits W (s : Searcher Hits W) (ow : OutputWriter Hits W)
         (args : Args) (n : Z) (src : list (Py.value * string)) (w : W),
    single_mode args = false -> (1 <= batch_size args)%Z ->
    batch_search_covers s -> write_returns ow ->
    (n <= 0 \/ Z.of_nat (List.length src) < n)%Z ->
    let b := Z.to_nat (batch_size args) in
    let N := List.length src in
    let x := run s ow args n src w in
    outcome x = inr tt /\
    consumed (trace x) = src /\
    map fst (dispatches (trace x)) =
      map (fun t => Py.VStr (Py.str (fst t))) (firstn (N - N mod b) src) /\
    search_calls (trace x) = [] /\
    exists batches,
      batch_calls (trace x) = map as_call batches /\
      Forall (fun batch => List.length batch = b) batches /\
      List.concat batches = firstn (N - N mod b) src.
Proof.
  intros Hits W s ow args n src w Hmode Hbs Hs Hw Hn b N x; subst x.
  destruct (@prefix_without_end Hits W s ow args n b src Hmode) with
      (w := w) (k := N)
    as (acc & w' & tr & batches & Hrun & _ & Hbc & Hfull & Hcat & Hd & Hc);
    try solve [assumption | subst b; lia | subst N; lia].
  assert (Hsearch : search_calls (trace (run s ow args n src w)) = []).
  { rewrite run_unfold; cbn [trace snd]. unfold search_calls; simpl.
    rewrite flat_map_app; simpl; rewrite app_nil_r.
    apply flat_map_nil, logs_for_loop; try reflexivity.
    intros Hm; congruence. }
  subst N. rewrite firstn_all in Hrun, Hc.
  split; [rewrite run_unfold, Hrun; reflexivity |].
  split; [| split; [| split; [exact Hsearch |]]].
  - rewrite run_unfold, Hrun; cbn [trace snd].
    unfold consumed in *; cbn [flat_map consumed_of app].
    rewrite flat_map_app; cbn [flat_map consumed_of].
    rewrite app_nil_r. exact Hc.
  - rewrite run_unfold, Hrun; cbn [trace snd].
    unfold dispatches in *; cbn [flat_map dispatch_of app].
    rewrite flat_map_app; cbn [flat_map dispatch_of].
    rewrite app_nil_r. exact Hd.
  - exists batches. split; [| split; assumption].
    rewrite run_unfold, Hrun; cbn [trace snd].
    unfold batch_calls in *; cbn [flat_map batch_call_of app].
    rewrite flat_map_app; cbn [flat_map batch_call_of].
    rewrite app_nil_r. exact Hbc.
Qed.

(** ** The further properties at work on the test doubles *)

(** X1 on the test configuration. *)
Lemma tag_is_path_without_extension_witness :
  output_path (Mock.config 1 1) = append (tag (Mock.config 1 1)) ".txt" /\
  tag (Mock.config 1 1) = "run.robust04.rho_1000000000"%string.
Proof.
  apply (@tag_is_path_without_extension (Mock.config 1 1)); reflexivity.
Defined.

(** X2 on two configurations that differ in batch size and threads only. *)
Lemma default_output_path_injective_witness :
  topics (Mock.config 1 1) = topics (Mock.config 5 4) /\
  rho (Mock.config 1 1) = rho (Mock.config 5 4).
Proof.
  apply (@default_output_path_injective (Mock.config 1 1) (Mock.config 5 4));
    reflexivity.
Defined.

(** X3 on five integer topic ids. *)
Lemma stringified_ids_stay_distinct_witness :
  NoDup (map (fun t => Py.str (fst t)) Mock.five).
Proof.
  apply (@stringified_ids_stay_distinct Mock.five).
  - simpl. repeat constructor; simpl; intuition discriminate.
  - left. repeat constructor; simpl; eauto.
Defined.

(** X4 on five topics with [batch_size = 0] and two threads. *)
Lemma zero_batch_size_raises_on_first_topic_witness :
  run (Mock.searcher false) Mock.writer (Mock.config 0 2) 5 Mock.five Mock.start
  = (inl Py.ZeroDivisionError, Mock.start,
     [EvEnter; EvNext 0 (Py.VInt 301) "q1"; EvExit]).
Proof.
  apply (@zero_batch_size_raises_on_first_topic
           Mock.Hits Mock.World (Mock.searcher false) Mock.writer
           (Mock.config 0 2) 5 (Py.VInt 301) "q1"%string (tl Mock.five)
           Mock.start);
    [reflexivity | simpl; lia].
Defined.

(** X5 on five topics with [batch_size = -3] and two threads. *)
Lemma negative_batch_size_acts_as_positive_witness :
  run (Mock.searcher false) Mock.writer (set_batch_size (Mock.config 1 2) (-3))
      5 Mock.five Mock.start =
  run (Mock.searcher false) Mock.writer (set_batch_size (Mock.config 1 2) 3)
      5 Mock.five Mock.start.
Proof.
  apply (@negative_batch_size_acts_as_positive
           Mock.Hits Mock.World (Mock.searcher false) Mock.writer
           (Mock.config 1 2) 3 5 Mock.five Mock.start).
  simpl; lia.
Defined.

(** X6 on a batch of two whose mapping lacks the first id. *)
Lemma missing_id_raises_before_any_write_witness :
  exists k,
    In k ["301"; "302"]%string /\
    ~ In k (Py.keys (Mock.fill ["q2"] ["302"] 2 1000000000 []))%string /\
    loop_body Doubles.forgetful Mock.writer (Mock.config 2 1) 5
              {| batch_topics := ["q1"]; batch_topic_ids := ["301"] |}%string
              1 (Py.VInt 302, "q2"%string) Mock.start =
    (inl (Py.KeyError k), Mock.tick Mock.start,
     [EvNext 1 (Py.VInt 302) "q2";
      EvBatchSearch ["q1"; "q2"] ["301"; "302"] 2 1000000000 1
        (inr (Mock.fill ["q2"] ["302"] 2 1000000000 []))]%string).
Proof.
  apply (@missing_id_raises_before_any_write
           Mock.Hits Mock.World Doubles.forgetful Mock.writer (Mock.config 2 1) 5
           {| batch_topics := ["q1"]; batch_topic_ids := ["301"] |}%string
           1 (Py.VInt 302) "q2"%string Mock.start (Mock.tick Mock.start)
           (Mock.fill ["q2"] ["302"] 2 1000000000 [])%string "301"%string);
    [reflexivity | simpl; lia | left; reflexivity | reflexivity
     | left; reflexivity |].
  simpl. intros [H | []]; discriminate.
Defined.

(** X7 on five topics in batches of three, with a writer whose second
    write raises: one pair is written, the third pair of the batch is not. *)
Lemma write_errors_abort_the_run_witness :
  let x := run (Mock.searcher false) (Doubles.failing_writer 1)
               (Mock.config 3 1) 5 Mock.five Mock.start in
  outcome x = inl (Py.Raised "disk full") /\
  List.length (Mock.written (world x)) = 1%nat /\
  List.length (consumed (trace x)) = 3%nat.
Proof.
  split; [| split; reflexivity].
  apply (@write_errors_abort_the_run
           Mock.Hits Mock.World (Mock.searcher false) (Doubles.failing_writer 1)
           (Mock.config 3 1) 5 Mock.five Mock.start
           (firstn 6 (trace (run (Mock.searcher false) (Doubles.failing_writer 1)
                                 (Mock.config 3 1) 5 Mock.five Mock.start)))
           [EvExit] (Py.VStr "302") (Mock.rank "q2" 2 1000000000)
           (Py.Raised "disk full")).
  reflexivity.
Defined.

(** X9 on five topics in batches of three. *)
Lemma searcher_calls_are_well_formed_witness :
  Forall (well_formed_call (Mock.config 3 1))
         (trace (run (Mock.searcher true) Mock.writer (Mock.config 3 1) 5
                     Mock.five Mock.start)).
Proof.
  apply (@searcher_calls_are_well_formed
           Mock.Hits Mock.World (Mock.searcher true) Mock.writer
           (Mock.config 3 1) 5 Mock.five Mock.start).
  simpl; lia.
Defined.

(** X10 on the first write of five topics in batches of three. *)
Lemma written_hits_come_from_the_searcher_witness :
  exists a,
    last_answer
      (firstn 5 (trace (run (Mock.searcher true) Mock.writer (Mock.config 3 1)
                            5 Mock.five Mock.start))) = Some a /\
    answers a (Py.VStr "301") (Mock.rank "q1" 2 1000000000).
Proof.
  apply (@written_hits_come_from_the_searcher
           Mock.Hits Mock.World (Mock.searcher true) Mock.writer
           (Mock.config 3 1) 5 Mock.five Mock.start
           (firstn 5 (trace (run (Mock.searcher true) Mock.writer
                                 (Mock.config 3 1) 5 Mock.five Mock.start)))
           (skipn 6 (trace (run (Mock.searcher true) Mock.writer
                                (Mock.config 3 1) 5 Mock.five Mock.start)))
           (Py.VStr "301") (Mock.rank "q1" 2 1000000000) (inr tt)).
  reflexivity.
Defined.

(** X11 on five topics in batches of three, with a topic count of 7: one
    batch of three is searched and written, the last two topics are not. *)
Lemma partial_batch_needs_matching_count_witness :
  let x := run (Mock.searcher false) Mock.writer (Mock.config 3 1) 7
               Mock.five Mock.start in
  outcome x = inr tt /\
  consumed (trace x) = Mock.five /\
  map fst (dispatches (trace x)) = map Py.VStr ["301"; "302"; "303"]%string /\
  search_calls (trace x) = [] /\
  exists batches,
    batch_calls (trace x) = map as_call batches /\
    Forall (fun batch => List.length batch = 3%nat) batches /\
    List.concat batches = firstn 3 Mock.five.
Proof.
  apply (@partial_batch_needs_matching_count
           Mock.Hits Mock.World (Mock.searcher false) Mock.writer
           (Mock.config 3 1) 7 Mock.five Mock.start);
    [reflexivity | simpl; lia | apply mock_batch_search_covers
     | apply mock_write_returns | right; simpl; lia].
Defined.

(** ** The output writer as a scoped resource: the runs *)

Section ScopedRuns.

Variables Hits V : Type.
Variable s : Searcher Hits V.
Variable dk : disk Hits.
Variable args : Args.
Variable n : Z.

Lemma flushed_app (t1 t2 : list (event Hits)) :
  flushed (t1 ++ t2) = flushed t1 ++ flushed t2.
Proof. apply flat_map_app. Qed.

Lemma stays_open_ret A (a : A) : stays_open (ret (W:=(V * file Hits)%type) a).
Proof.
  intros v records; cbn. rewrite app_nil_r. split; [reflexivity | constructor].
Qed.

Lemma stays_open_lift A (r : Py.result A) : stays_open (lift (W:=(V * file Hits)%type) r).
Proof.
  intros v records; cbn. rewrite app_nil_r. split; [reflexivity | constructor].
Qed.

Lemma stays_open_next i topic_id text :
  stays_open (emit (W:=(V * file Hits)%type) (EvNext i topic_id text)).
Proof.
  intros v records; cbn. rewrite app_nil_r.
  split; [reflexivity | repeat constructor].
Qed.

Lemma stays_open_bind A B (m : M Hits (V * file Hits) A) (f : A -> M Hits (V * file Hits) B) :
  stays_open m -> (forall a, stays_open (f a)) -> stays_open (bind m f).
Proof.
  intros Hm Hf v records. specialize (Hm v records). cbv zeta in *.
  unfold bind.
  destruct (m (v, Opened records)) as [[[e | a] [v1 f1]] t1];
    cbn [outcome world trace fst snd] in *; [exact Hm |].
  destruct Hm as [-> Ha1].
  specialize (Hf a v1 (records ++ flushed t1)). cbv zeta in Hf.
  destruct (f a (v1, Opened (records ++ flushed t1))) as [[r [v2 f2]] t2];
    cbn [outcome world trace fst snd] in *.
  destruct Hf as [-> Ha2].
  rewrite flushed_app, app_assoc.
  split; [reflexivity | apply Forall_app; split; assumption].
Qed.

Lemma stays_open_search text k r :
  stays_open (call (search (on_backend s) text k r) (EvSearch text k r)).
Proof.
  intros v records. unfold call; cbn [search on_backend fst snd].
  destruct (search s text k r v) as [res v']; cbn.
  rewrite app_nil_r. split; [reflexivity | repeat constructor].
Qed.

Lemma stays_open_batch_search texts ids k r t :
  stays_open (call (batch_search (on_backend s) texts ids k r t)
                   (EvBatchSearch texts ids k r t)).
Proof.
  intros v records. unfold call; cbn [batch_search on_backend fst snd].
  destruct (batch_search s texts ids k r t v) as [res v']; cbn.
  rewrite app_nil_r. split; [reflexivity | repeat constructor].
Qed.

Lemma stays_open_write topic h :
  stays_open (call (write (sink_writer V dk) topic h) (EvWrite topic h)).
Proof.
  intros v records. unfold call; cbn [write sink_writer sink_write fst snd].
  destruct (is_full dk records); cbn.
  - rewrite app_nil_r. split; [reflexivity | repeat constructor].
  - split; [reflexivity | repeat constructor].
Qed.

Lemma stays_open_write_results rs :
  stays_open (write_results (sink_writer V dk) rs).
Proof.
  induction rs as [| [topic h] rs IH]; simpl.
  - apply stays_open_ret.
  - apply stays_open_bind; [apply stays_open_write | intros _; exact IH].
Qed.

Lemma stays_open_loop_body acc i item :
  stays_open (loop_body (on_backend s) (sink_writer V dk) args n acc i item).
Proof.
  destruct item as [topic_id text]. unfold loop_body.
  apply stays_open_bind; [apply stays_open_next | intros _].
  destruct (single_mode args).
  - apply stays_open_bind; [apply stays_open_search | intros h].
    apply stays_open_bind; [apply stays_open_write_results | intros _].
    apply stays_open_ret.
  - apply stays_open_bind; [apply stays_open_lift | intros m].
    destruct (_ || _); [| apply stays_open_ret].
    apply stays_open_bind; [apply stays_open_batch_search | intros d].
    apply stays_open_bind; [apply stays_open_lift | intros rs].
    apply stays_open_bind; [apply stays_open_write_results | intros _].
    apply stays_open_ret.
Qed.

Lemma stays_open_for_loop items : forall i acc,
    stays_open (for_loop (on_backend s) (sink_writer V dk) args n i items acc).
Proof.
  induction items as [| item rest IH]; intros i acc; simpl.
  - apply stays_open_ret.
  - apply stays_open_bind; [apply stays_open_loop_body | intros acc'; apply IH].
Qed.

End ScopedRuns.

(** With a context manager whose methods return, change nothing and
    suppress nothing, the [with] statement is [with_output_writer]. *)
Lemma run_scoped_plain Hits W (cm : ContextManager W) (s : Searcher Hits W)
      (ow : OutputWriter Hits W) args n src w :
  (forall w0, cm_enter cm w0 = (inr tt, w0)) ->
  (forall exc w0, cm_exit cm exc w0 = (inr false, w0)) ->
  run_scoped cm s ow args n src w = run s ow args n src w.
Proof.
  intros He Hx. unfold run_scoped, run, with_statement, with_output_writer.
  rewrite He.
  destruct ((for_loop s ow args n 0 src empty;;; ret tt) w) as [[[e | []] w2] t];
    rewrite Hx; reflexivity.
Qed.

(** C7: with the output writer of the design (its [__enter__] opens the
    destination, [write] appends a record to the open destination,
    [__exit__] closes it), whatever the searcher does and however many
    writes succeed before the disk is full: if the destination can be
    opened, the run enters the writer first and exits it last, no write
    is refused for want of an open destination, and the run ends with the
    destination closed and holding exactly the pairs whose write returned,
    whether the loop returned or raised (its exception is then the
    outcome of the run). If the destination cannot be opened the loop does
    not start. On an empty topic source the run returns with nothing
    written and the destination closed and empty. *)
Theorem output_writer_closed_on_every_path :
  forall Hits V (s : Searcher Hits V) (dk : disk Hits) (args : Args) (n : Z)
         (src : list (Py.value * string)) (v : V),
    let scoped := run_scoped (sink_manager V dk) (on_backend s)
                             (sink_writer V dk) args n in
    let loop := for_loop (on_backend s) (sink_writer V dk) args n 0 src empty
                         (v, Opened []) in
    (if can_open dk then
       exists body,
         trace (scoped src (v, Unopened)) = EvEnter :: body ++ [EvExit] /\
         Forall (fun ev => is_scope ev = false) body /\
         Forall (@accepted Hits) body /\
         dispatches (trace (scoped src (v, Unopened))) = dispatches body /\
         snd (world (scoped src (v, Unopened))) = Closed (flushed body) /\
         outcome (scoped src (v, Unopened)) =
           match outcome loop with inl e => inl e | inr _ => inr tt end
     else
       scoped src (v, Unopened) = (inl permission_denied, (v, Unopened), [EvEnter])) /\
    scoped [] (v, Unopened) =
      (if can_open dk then (inr tt, (v, Closed []), [EvEnter; EvExit])
       else (inl permission_denied, (v, Unopened), [EvEnter])).
Proof.
  intros Hits V s dk args n src v scoped loop. subst scoped loop.
  unfold run_scoped, with_statement, sink_manager, sink_enter.
  cbn [cm_enter cm_exit fst snd].
  destruct (can_open dk); [| split; reflexivity].
  split; [| reflexivity].
  pose proof (@stays_open_for_loop Hits V s dk args n src 0 empty v []) as Hopen.
  pose proof (@logs_for_loop Hits (V * file Hits) (on_backend s)
                (sink_writer V dk) args n (fun ev => is_scope ev = false)
                ltac:(reflexivity) ltac:(reflexivity)
                ltac:(reflexivity) ltac:(reflexivity) src 0%nat empty
                (v, Opened [])) as Hscope.
  cbv zeta in Hopen. unfold bind, ret.
  destruct (for_loop (on_backend s) (sink_writer V dk) args n 0 src empty
                     (v, Opened [])) as [[r [v1 f1]] t];
    cbn [outcome world trace fst snd app] in *.
  destruct Hopen as [-> Hacc].
  exists t. destruct r as [e | acc]; cbn [sink_exit fst snd outcome world trace];
    rewrite ?app_nil_r;
    (split; [reflexivity | split; [exact Hscope | split; [exact Hacc |]]]);
    (split; [| split; reflexivity]);
    unfold dispatches; cbn [flat_map dispatch_of app];
    rewrite flat_map_app; cbn [flat_map dispatch_of]; apply app_nil_r.
Qed.

(** C7 on five topics in batches of three, with a disk that is full after
    one record: the run raises, and the destination is closed with the one
    record written. *)
Lemma output_writer_closed_on_every_path_witness :
  let dk := {| can_open := true;
               is_full := fun records => (1 <=? List.length records)%nat |} in
  let x := run_scoped (sink_manager Mock.World dk)
                      (on_backend (Mock.searcher false))
                      (sink_writer Mock.World dk) (Mock.config 3 1) 5
                      Mock.five (Mock.start, Unopened) in
  outcome x = inl no_space /\
  snd (world x) = Closed [(Py.VStr "301", Mock.rank "q1" 2 1000000000)] /\
  List.length (dispatches (trace x)) = 2%nat.
Proof.
  intros dk x.
  destruct (@output_writer_closed_on_every_path
              Mock.Hits Mock.World (Mock.searcher false) dk (Mock.config 3 1) 5
              Mock.five Mock.start) as [(body & Ht & _ & _ & _ & Hw & Ho) _].
  fold x in Ht, Hw, Ho.
  split; [rewrite Ho; reflexivity | split; [| reflexivity]].
  rewrite Hw. f_equal.
  assert (Hb : body = removelast (tl (trace x))).
  { rewrite Ht. cbn [tl]. rewrite removelast_last. reflexivity. }
  rewrite Hb. reflexivity.
Defined.
